(** * drozer console: the extended command shell (WithSecure/common/cmd_ext.py)

    A shallow embedding of the class [Cmd] of [cmd_ext.py], which extends
    Python's [cmd.Cmd] with variables, history-bang substitution, output
    redirection and a stack of completers, together with the properties the
    specification states about it.

    Python strings are [string]; lists are [list]; dictionaries whose order
    matters (Python dictionaries iterate in insertion order) are association
    lists; a method that may raise returns a [result] and threads the whole
    program state, which survives an exception. *)

From Stdlib Require Import String Ascii List ZArith Lia Bool Arith.
From Stdlib Require Import Numbers.DecimalString.
Import ListNotations.
Open Scope string_scope.

(* ===================================================================== *)
(** ** Python string operations used by the module *)
(* ===================================================================== *)

Module PyStr.

Definition chr (n : nat) : ascii := ascii_of_nat n.

(** The characters the source writes as escapes. *)
Definition dquote : ascii := chr 34.
Definition squote : ascii := chr 39.
Definition backslash : ascii := chr 92.
Definition newline : ascii := chr 10.
Definition nl : string := String newline EmptyString.

Definition char_in (c : ascii) (cs : list ascii) : bool :=
  existsb (Ascii.eqb c) cs.

Definition nonempty (s : string) : bool :=
  match s with EmptyString => false | String _ _ => true end.

(** [s + c] for a one-character string [c]. *)
Definition snoc (s : string) (c : ascii) : string :=
  s ++ String c EmptyString.

(** [str.isspace] on the ASCII range: 0x09-0x0D, 0x1C-0x1F and 0x20. *)
Definition is_space (c : ascii) : bool :=
  let n := nat_of_ascii c in
  ((9 <=? n)%nat && (n <=? 13)%nat) || ((28 <=? n)%nat && (n <=? 32)%nat).

Fixpoint lstrip (s : string) : string :=
  match s with
  | EmptyString => EmptyString
  | String c s' => if is_space c then lstrip s' else s
  end.

Fixpoint rstrip (s : string) : string :=
  match s with
  | EmptyString => EmptyString
  | String c s' =>
      match rstrip s' with
      | EmptyString => if is_space c then EmptyString else String c EmptyString
      | r => String c r
      end
  end.

(** [s.strip()] *)
Definition strip (s : string) : string := rstrip (lstrip s).

(** [s.rstrip(chars)] *)
Fixpoint rstrip_chars (cs : list ascii) (s : string) : string :=
  match s with
  | EmptyString => EmptyString
  | String c s' =>
      match rstrip_chars cs s' with
      | EmptyString => if char_in c cs then EmptyString else String c EmptyString
      | r => String c r
      end
  end.

(** [s.find(sub)]: the lowest index at which [sub] occurs, [-1] if none. *)
Fixpoint find_from (sub s : string) (i : Z) : Z :=
  if prefix sub s then i
  else match s with
       | EmptyString => (-1)%Z
       | String _ s' => find_from sub s' (i + 1)%Z
       end.

Definition find (s sub : string) : Z := find_from sub s 0%Z.

(** [sub in s] *)
Definition contains (sub s : string) : bool := (0 <=? find s sub)%Z.

(** [s.replace(old, new)] for a non-empty [old]: occurrences are found
    from the left and do not overlap; [skip] counts the characters of the
    occurrence just replaced that are still to be passed over. *)
Fixpoint replace_go (old new : string) (skip : nat) (s : string) : string :=
  match s with
  | EmptyString => EmptyString
  | String c s' =>
      match skip with
      | S k => replace_go old new k s'
      | O =>
          if prefix old s
          then new ++ replace_go old new (String.length old - 1) s'
          else String c (replace_go old new 0 s')
      end
  end.

(** With an empty [old], Python puts [new] around every character. *)
Fixpoint interleave (new s : string) : string :=
  match s with
  | EmptyString => new
  | String c s' => new ++ String c (interleave new s')
  end.

Definition replace (s old new : string) : string :=
  match old with
  | EmptyString => interleave new s
  | String _ _ => replace_go old new 0 s
  end.

(** [s.rsplit(sep, 1)] for a one-character separator: one split, at the
    last occurrence; the list has one element when [sep] does not occur. *)
Fixpoint rsplit_last (sep : ascii) (s : string) : option (string * string) :=
  match s with
  | EmptyString => None
  | String c s' =>
      match rsplit_last sep s' with
      | Some (l, r) => Some (String c l, r)
      | None => if Ascii.eqb c sep then Some (EmptyString, s') else None
      end
  end.

Definition rsplit1 (sep : ascii) (s : string) : list string :=
  match rsplit_last sep s with
  | Some (l, r) => [l; r]
  | None => [s]
  end.

(** [sep.join(l)] *)
Definition join (sep : string) (l : list string) : string := String.concat sep l.

(** [s.lower()] on the ASCII range. *)
Definition lower_char (c : ascii) : ascii :=
  let n := nat_of_ascii c in
  if (65 <=? n)%nat && (n <=? 90)%nat then ascii_of_nat (n + 32) else c.

Fixpoint lower (s : string) : string :=
  match s with
  | EmptyString => EmptyString
  | String c s' => String (lower_char c) (lower s')
  end.

(** [str(n)] for a non-negative integer. *)
Definition of_nat (n : nat) : string := NilEmpty.string_of_uint (Nat.to_uint n).

End PyStr.

(* ===================================================================== *)
(** ** Exceptions *)
(* ===================================================================== *)

(** The exception classes that the module raises, catches or lets through.
    [IOError] is Python 3's [OSError], with its [errno] and [strerror];
    [OtherError] stands for any further class a command handler raises
    (none of them a subclass of [ValueError] or of [OSError]), named by
    [cls]: [RuntimeError], [TypeError], but also [SystemExit] and
    [KeyboardInterrupt]. *)
Inductive exn : Type :=
| ValueError (msg : string)
| IndexError (msg : string)
| AttributeError (msg : string)
| IOError (errno : nat) (strerror : string)
| OtherError (cls msg : string).

Inductive result (A : Type) : Type :=
| Ok (a : A)
| Raise (e : exn).
Arguments Ok {A} a.
Arguments Raise {A} e.

Definition class_name (e : exn) : string :=
  match e with
  | ValueError _ => "ValueError"
  | IndexError _ => "IndexError"
  | AttributeError _ => "AttributeError"
  | IOError _ _ => "OSError"
  | OtherError cls _ => cls
  end.

(** [isinstance(e, Exception)], which is what [except Exception] tests.
    The built-in classes that do not derive from [Exception] are
    [BaseException] itself, [SystemExit], [KeyboardInterrupt],
    [GeneratorExit] and [BaseExceptionGroup]; every other class is taken to
    derive from [Exception]. *)
Definition base_exception_only : list string :=
  ["BaseException"; "SystemExit"; "KeyboardInterrupt"; "GeneratorExit";
   "BaseExceptionGroup"].

Definition is_exception (e : exn) : bool :=
  match e with
  | OtherError cls _ => negb (existsb (String.eqb cls) base_exception_only)
  | _ => true
  end.

(** [str(e)] *)
Definition str_exn (e : exn) : string :=
  match e with
  | ValueError m | IndexError m | AttributeError m | OtherError _ m => m
  | IOError n m => "[Errno " ++ PyStr.of_nat n ++ "] " ++ m
  end.

(** [e.message].  The module runs under Python 3 only (it uses
    [ModuleNotFoundError], [input] and [print(..., end=...)]), where no
    exception carries a [message] attribute: the access raises. *)
Definition exn_message (e : exn) : result string :=
  Raise (AttributeError
           ("'" ++ class_name e ++ "' object has no attribute 'message'")).

(** [l[i]] for [i >= 0] and [l[-1]]. *)
Definition index {A} (l : list A) (i : nat) : result A :=
  match nth_error l i with
  | Some x => Ok x
  | None => Raise (IndexError "list index out of range")
  end.

Definition index_last {A} (l : list A) : result A :=
  match rev l with
  | x :: _ => Ok x
  | [] => Raise (IndexError "list index out of range")
  end.

(* ===================================================================== *)
(** ** shlex.split (POSIX mode), the tokenizer of the standard library *)
(* ===================================================================== *)

Module Shlex.
Import PyStr.

(** The lexer's [state] is one of [' '], ['a'], a quote character or the
    escape character; [escapedstate] is the state to return to after an
    escape. *)
Inductive lexstate : Type :=
| Space                 (* ' ' *)
| Word                  (* 'a' *)
| Quote (q : ascii)     (* the opening quote *)
| Escape.               (* '\\' *)

Definition whitespace : list ascii := [chr 32; chr 9; chr 13; chr 10].
Definition quotes : list ascii := [squote; dquote].
Definition escape : list ascii := [backslash].
Definition escapedquotes : list ascii := [dquote].

Definition emit (token : string) (r : result (list string)) : result (list string) :=
  match r with
  | Ok l => Ok (token :: l)
  | Raise e => Raise e
  end.

(** All the calls of [read_token] that [list(lex)] makes, as one pass over
    the input: [shlex.split] sets [whitespace_split] and clears
    [commenters], and [punctuation_chars] is empty, so every character that
    is not whitespace, a quote or the escape character joins the token. A
    token is emitted at whitespace or at the end of the input when it is
    non-empty or was quoted; [quoted], [escapedstate] and [token] start
    afresh after each token. *)
Fixpoint read_tokens (s : string) (state escapedstate : lexstate)
         (quoted : bool) (token : string) : result (list string) :=
  match s with
  | EmptyString =>
      match state with
      | Space | Word => Ok (if nonempty token || quoted then [token] else [])
      | Quote _ => Raise (ValueError "No closing quotation")
      | Escape => Raise (ValueError "No escaped character")
      end
  | String c rest =>
      match state with
      | Space =>
          if char_in c whitespace then
            if nonempty token || quoted
            then emit token (read_tokens rest Space Space false EmptyString)
            else read_tokens rest Space escapedstate quoted token
          else if char_in c escape then
            read_tokens rest Escape Word quoted token
          else if char_in c quotes then
            read_tokens rest (Quote c) escapedstate quoted token
          else
            read_tokens rest Word escapedstate quoted (String c EmptyString)
      | Quote q =>
          if Ascii.eqb c q then
            read_tokens rest Word escapedstate true token
          else if char_in c escape && char_in q escapedquotes then
            read_tokens rest Escape (Quote q) true token
          else
            read_tokens rest (Quote q) escapedstate true (snoc token c)
      | Escape =>
          let token' :=
            match escapedstate with
            | Quote q =>
                if negb (Ascii.eqb c backslash) && negb (Ascii.eqb c q)
                then snoc token backslash else token
            | _ => token
            end in
          read_tokens rest escapedstate escapedstate quoted (snoc token' c)
      | Word =>
          if char_in c whitespace then
            if nonempty token || quoted
            then emit token (read_tokens rest Space Space false EmptyString)
            else read_tokens rest Space escapedstate quoted token
          else if char_in c quotes then
            read_tokens rest (Quote c) escapedstate quoted token
          else if char_in c escape then
            read_tokens rest Escape Word quoted token
          else
            read_tokens rest Word escapedstate quoted (snoc token c)
      end
  end.

Definition split (s : string) : result (list string) :=
  read_tokens s Space Space false EmptyString.

End Shlex.

(* ===================================================================== *)
(** ** The program state *)
(* ===================================================================== *)

(** The mode a redirection target is opened in: ['w'] or ['a']. *)
Inductive open_mode : Type := ModeW | ModeA.

(** The callbacks given to [readline.set_completer]: the shell's own
    [self.complete], or one a host passes to [push_completer]. *)
Inductive completer : Type :=
| CmdComplete
| HostCompleter (id : nat).

(** Stream objects.  A [Tee] carries the identity [oid] it got when it was
    constructed, so two tees are the same value only if they are the same
    object. *)
Inductive stream : Type :=
| SysStdout
| SysStderr
| HostStream (id : nat)
| Tee (oid : nat) (console : stream) (destination : string) (mode : open_mode).

(** The attributes of a [Cmd] instance. *)
Record Cmd : Type := mkCmd {
  completer_stack : list (option completer);   (* self.__completer_stack *)
  history_stack : list (option string);        (* self.__history_stack *)
  output_redirected : option stream;           (* self.__output_redirected *)
  aliases : list (string * string);
  variables : list (string * string);
  history_file : option string;
  lastcmd : string;
  cmdqueue : list string;
  intro : option string;
  prompt : string;
  use_rawinput : bool;
  completekey : option string;
  stdout : stream;
  stderr : stream
}.

(** The line editor ([readline]). *)
Record Readline : Type := mkReadline {
  rl_completer : option completer;
  rl_delims : string;
  rl_history : list string;
  rl_bindings : list string
}.

(** The rest of the process: the lines still to be read from the input, every
    write made so far with the stream object it was made on, every [open] of
    a redirection target, the next free object identity, and the history
    files on disk. *)
Record Process : Type := mkProcess {
  stdin : list string;
  written : list (stream * string);
  opened : list (string * open_mode);
  next_oid : nat;
  disk : list (string * list string)
}.

Record World : Type := mkWorld {
  self : Cmd;
  rl : Readline;
  proc : Process
}.

(** What the module reads from its surroundings and does not decide:
    whether [readline] could be imported, the platform name, and which file
    operations the operating system refuses (with [errno] and [strerror]). *)
Record Host : Type := mkHost {
  has_readline : bool;
  platform : string;
  open_error : string -> open_mode -> option (nat * string);
  write_history_error : string -> option (nat * string);
  read_history_error : string -> option (nat * string);
  version_notices : list string
}.

(** [Cmd.__init__] on top of [cmd.Cmd.__init__] and the class attributes of
    [cmd.Cmd]. *)
Definition init_cmd : Cmd :=
  {| completer_stack := [];
     history_stack := [];
     output_redirected := None;
     aliases := [];
     variables := [];
     history_file := None;
     lastcmd := EmptyString;
     cmdqueue := [];
     intro := None;
     prompt := "(Cmd) ";
     use_rawinput := true;
     completekey := Some "tab";
     stdout := SysStdout;
     stderr := SysStderr |}.

Definition set_completer_stack (v : list (option completer)) (c : Cmd) : Cmd :=
  mkCmd v (history_stack c) (output_redirected c) (aliases c) (variables c)
        (history_file c) (lastcmd c) (cmdqueue c) (intro c) (prompt c)
        (use_rawinput c) (completekey c) (stdout c) (stderr c).

Definition set_history_stack (v : list (option string)) (c : Cmd) : Cmd :=
  mkCmd (completer_stack c) v (output_redirected c) (aliases c) (variables c)
        (history_file c) (lastcmd c) (cmdqueue c) (intro c) (prompt c)
        (use_rawinput c) (completekey c) (stdout c) (stderr c).

Definition set_output_redirected (v : option stream) (c : Cmd) : Cmd :=
  mkCmd (completer_stack c) (history_stack c) v (aliases c) (variables c)
        (history_file c) (lastcmd c) (cmdqueue c) (intro c) (prompt c)
        (use_rawinput c) (completekey c) (stdout c) (stderr c).

Definition set_aliases (v : list (string * string)) (c : Cmd) : Cmd :=
  mkCmd (completer_stack c) (history_stack c) (output_redirected c) v (variables c)
        (history_file c) (lastcmd c) (cmdqueue c) (intro c) (prompt c)
        (use_rawinput c) (completekey c) (stdout c) (stderr c).

Definition set_variables (v : list (string * string)) (c : Cmd) : Cmd :=
  mkCmd (completer_stack c) (history_stack c) (output_redirected c) (aliases c) v
        (history_file c) (lastcmd c) (cmdqueue c) (intro c) (prompt c)
        (use_rawinput c) (completekey c) (stdout c) (stderr c).

Definition set_lastcmd (v : string) (c : Cmd) : Cmd :=
  mkCmd (completer_stack c) (history_stack c) (output_redirected c) (aliases c)
        (variables c) (history_file c) v (cmdqueue c) (intro c) (prompt c)
        (use_rawinput c) (completekey c) (stdout c) (stderr c).

Definition set_cmdqueue (v : list string) (c : Cmd) : Cmd :=
  mkCmd (completer_stack c) (history_stack c) (output_redirected c) (aliases c)
        (variables c) (history_file c) (lastcmd c) v (intro c) (prompt c)
        (use_rawinput c) (completekey c) (stdout c) (stderr c).

Definition set_stdout (v : stream) (c : Cmd) : Cmd :=
  mkCmd (completer_stack c) (history_stack c) (output_redirected c) (aliases c)
        (variables c) (history_file c) (lastcmd c) (cmdqueue c) (intro c) (prompt c)
        (use_rawinput c) (completekey c) v (stderr c).

Definition set_rl_completer (v : option completer) (r : Readline) : Readline :=
  mkReadline v (rl_delims r) (rl_history r) (rl_bindings r).

Definition set_rl_delims (v : string) (r : Readline) : Readline :=
  mkReadline (rl_completer r) v (rl_history r) (rl_bindings r).

Definition set_rl_history (v : list string) (r : Readline) : Readline :=
  mkReadline (rl_completer r) (rl_delims r) v (rl_bindings r).

Definition set_rl_bindings (v : list string) (r : Readline) : Readline :=
  mkReadline (rl_completer r) (rl_delims r) (rl_history r) v.

Definition set_stdin (v : list string) (p : Process) : Process :=
  mkProcess v (written p) (opened p) (next_oid p) (disk p).

Definition set_written (v : list (stream * string)) (p : Process) : Process :=
  mkProcess (stdin p) v (opened p) (next_oid p) (disk p).

Definition set_opened (v : list (string * open_mode)) (p : Process) : Process :=
  mkProcess (stdin p) (written p) v (next_oid p) (disk p).

Definition set_next_oid (v : nat) (p : Process) : Process :=
  mkProcess (stdin p) (written p) (opened p) v (disk p).

Definition set_disk (v : list (string * list string)) (p : Process) : Process :=
  mkProcess (stdin p) (written p) (opened p) (next_oid p) v.

Definition on_self (f : Cmd -> Cmd) (w : World) : World :=
  mkWorld (f (self w)) (rl w) (proc w).

Definition on_rl (f : Readline -> Readline) (w : World) : World :=
  mkWorld (self w) (f (rl w)) (proc w).

Definition on_proc (f : Process -> Process) (w : World) : World :=
  mkWorld (self w) (rl w) (f (proc w)).

(** Everything written so far to the stream object [s]. *)
Definition written_to (s : stream) (w : World) : list string :=
  map snd (filter (fun p =>
                     match p with
                     | (SysStdout, _) => match s with SysStdout => true | _ => false end
                     | (SysStderr, _) => match s with SysStderr => true | _ => false end
                     | (HostStream i, _) =>
                         match s with HostStream j => Nat.eqb i j | _ => false end
                     | (Tee i _ _ _, _) =>
                         match s with Tee j _ _ _ => Nat.eqb i j | _ => false end
                     end) (written (proc w))).

(* ===================================================================== *)
(** ** Methods as state transformers that may raise *)
(* ===================================================================== *)

(** A method call: from the state before to an outcome and the state after.
    The state after an exception is the state at the point of the raise. *)
Definition M (A : Type) : Type := World -> result A * World.

Definition ret {A} (a : A) : M A := fun w => (Ok a, w).

Definition raise {A} (e : exn) : M A := fun w => (Raise e, w).

Definition bind {A B} (m : M A) (k : A -> M B) : M B :=
  fun w =>
    match m w with
    | (Ok a, w') => k a w'
    | (Raise e, w') => (Raise e, w')
    end.

Definition lift {A} (r : result A) : M A := fun w => (r, w).

Definition gets {A} (f : World -> A) : M A := fun w => (Ok (f w), w).

Definition modify (f : World -> World) : M unit := fun w => (Ok tt, f w).

(** [try: m  except <classes chosen by h>: ...] *)
Definition try_except {A} (m : M A) (h : exn -> option (M A)) : M A :=
  fun w =>
    match m w with
    | (Ok a, w') => (Ok a, w')
    | (Raise e, w') =>
        match h e with
        | Some k => k w'
        | None => (Raise e, w')
        end
    end.

(** [try: m  finally: f] *)
Definition try_finally {A} (m : M A) (f : M unit) : M A :=
  fun w =>
    match m w with
    | (r, w') =>
        match f w' with
        | (Ok _, w'') => (r, w'')
        | (Raise e, w'') => (Raise e, w'')
        end
    end.

Declare Scope py_scope.
Delimit Scope py_scope with py.
Notation "x <- m ;; k" := (bind m (fun x => k))
  (at level 61, m at next level, right associativity) : py_scope.
Notation "m ;; k" := (bind m (fun _ => k))
  (at level 61, right associativity) : py_scope.
Open Scope py_scope.

(** The state after [text] was written to the stream object [s]. *)
Definition wrote (s : stream) (text : string) (w : World) : World :=
  on_proc (fun p => set_written (written p ++ [(s, text)])%list p) w.

(** [s.write(text)] *)
Definition write (s : stream) (text : string) : M unit :=
  modify (wrote s text).

(** [print(text)] *)
Definition print (text : string) : M unit :=
  write SysStdout (text ++ PyStr.nl).

Definition truthy (o : option string) : bool :=
  match o with
  | Some s => PyStr.nonempty s
  | None => false
  end.

Definition lookup (k : string) (d : list (string * string)) : option string :=
  match List.find (fun kv => String.eqb (fst kv) k) d with
  | Some kv => Some (snd kv)
  | None => None
  end.

Definition in_list (x : string) (l : list string) : bool :=
  existsb (String.eqb x) l.

(** Dictionary assignment [d[k] = v] and [del d[k]]: a key keeps its place
    when it is assigned again, a new key goes last. *)
Fixpoint dict_set (k v : string) (d : list (string * string)) : list (string * string) :=
  match d with
  | [] => [(k, v)]
  | (k', v') :: d' =>
      if String.eqb k' k then (k, v) :: d' else (k', v') :: dict_set k v d'
  end.

Definition dict_del (k : string) (d : list (string * string)) : list (string * string) :=
  filter (fun kv => negb (String.eqb (fst kv) k)) d.

(** [kv.split("=", 1)] when ["=" in kv]. *)
Fixpoint split_first (sep : ascii) (s : string) : option (string * string) :=
  match s with
  | EmptyString => None
  | String c s' =>
      if Ascii.eqb c sep then Some (EmptyString, s')
      else match split_first sep s' with
           | Some (l, r) => Some (String c l, r)
           | None => None
           end
  end.

(** History files on disk, each kept as the entries that were written to
    it. *)
Definition disk_lookup (path : string) (d : list (string * list string)) : option (list string) :=
  match List.find (fun e => String.eqb (fst e) path) d with
  | Some e => Some (snd e)
  | None => None
  end.

Definition disk_write (path : string) (content : list string)
           (d : list (string * list string)) : list (string * list string) :=
  (path, content) :: filter (fun e => negb (String.eqb (fst e) path)) d.

(** The lines of one written entry: an entry that holds line ends spreads
    over several lines of the file. *)
Fixpoint split_lines (s : string) : list string :=
  match s with
  | EmptyString => [EmptyString]
  | String c s' =>
      if Ascii.eqb c PyStr.newline then EmptyString :: split_lines s'
      else match split_lines s' with
           | l :: ls => String c l :: ls
           | [] => [String c EmptyString]
           end
  end.

(** The entries that the line editor reads back from a file written with
    the entries [content]: one per line that is not empty. *)
Definition file_entries (content : list string) : list string :=
  filter PyStr.nonempty (flat_map split_lines content).

(** [os.path.exists(path)] *)
Definition path_exists (path : string) (w : World) : bool :=
  match disk_lookup path (disk (proc w)) with Some _ => true | None => false end.

Section Shell.

Variable host : Host.

(** [getattr(self, 'do_' + name)] over the whole class: the handlers of
    the application that subclasses [Cmd], the ones defined below and the
    inherited [do_help]; [None] when the lookup raises [AttributeError].
    A handler takes the argument string and returns the stop flag. *)
Variable getattr_do : string -> option (string -> M bool).

(* ------------------------------------------------------------------- *)
(** *** The line editor *)

(** [readline.write_history_file(path)] *)
Definition write_history_file (path : string) : M unit :=
  match write_history_error host path with
  | Some (errno, strerror) => raise (IOError errno strerror)
  | None =>
      modify (fun w =>
                on_proc (fun p => set_disk (disk_write path (rl_history (rl w)) (disk p)) p) w)
  end.

(** [readline.read_history_file(path)]: the lines of the file are added to
    the history in memory.  The file holds the entries that were written,
    one after the other with a line end after each; reading takes it line
    by line and leaves out the empty lines ([file_entries]). *)
Definition read_history_file (path : string) : M unit :=
  fun w =>
    match disk_lookup path (disk (proc w)) with
    | None => (Raise (IOError 2 "No such file or directory"), w)
    | Some content =>
        match read_history_error host path with
        | Some (errno, strerror) => (Raise (IOError errno strerror), w)
        | None =>
            (Ok tt,
             on_rl (fun r => set_rl_history (rl_history r ++ file_entries content)%list r) w)
        end
    end.

(** [readline.clear_history()] *)
Definition clear_history : M unit :=
  modify (on_rl (set_rl_history [])).

(** [readline.set_completer(c)] *)
Definition set_completer (c : option completer) : M unit :=
  modify (on_rl (set_rl_completer c)).

(** [l.pop()] on a stack attribute: the last element leaves the list. *)
Definition pop_last {A} (get : Cmd -> list A) (set : list A -> Cmd -> Cmd) : M A :=
  fun w =>
    match rev (get (self w)) with
    | x :: _ => (Ok x, on_self (set (removelast (get (self w)))) w)
    | [] => (Raise (IndexError "pop from empty list"), w)
    end.

Definition push_completer (c : completer) (history_file : option string) : M unit :=
  if has_readline host then
    cur <- gets (fun w => rl_completer (rl w)) ;;
    modify (on_self (fun s => set_completer_stack (completer_stack s ++ [cur])%list s)) ;;
    set_completer (Some c) ;;
    modify (on_rl (fun r => set_rl_delims (PyStr.replace (rl_delims r) "/" EmptyString) r)) ;;
    hs <- gets (fun w => history_stack (self w)) ;;
    (if (0 <? List.length hs)%nat
     then top <- lift (index_last hs) ;;
          match top with
          | Some f => if PyStr.nonempty f then write_history_file f else ret tt
          | None => ret tt
          end
     else ret tt) ;;
    modify (on_self (fun s => set_history_stack (history_stack s ++ [history_file])%list s)) ;;
    clear_history ;;
    (match history_file with
     | Some f =>
         ex <- gets (path_exists f) ;;
         if ex then
           try_except (read_history_file f)
             (fun e =>
                match e with
                | IOError _ _ =>
                    Some (if PyStr.contains "darwin" (PyStr.lower (platform host))
                             && String.eqb (PyStr.strip (str_exn e))
                                           "[Errno 1] Operation not permitted"
                          then ret tt
                          else raise e)
                | _ => None
                end)
         else ret tt
     | None => ret tt
     end) ;;
    key <- gets (fun w => completekey (self w)) ;;
    match key with
    | Some k =>
        modify (on_rl (fun r => set_rl_bindings (rl_bindings r ++ [String.append k ": complete"])%list r))
    | None =>
        raise (OtherError "TypeError"
                 "unsupported operand type(s) for +: 'NoneType' and 'str'")
    end
  else ret tt.

Definition pop_completer : M unit :=
  if has_readline host then
    hs <- gets (fun w => history_stack (self w)) ;;
    top <- lift (index_last hs) ;;
    (match top with
     | Some _ =>
         f <- pop_last history_stack set_history_stack ;;
         match f with
         | Some path => write_history_file path
         | None => ret tt
         end
     | None =>
         _ <- pop_last history_stack set_history_stack ;; ret tt
     end) ;;
    clear_history ;;
    hs' <- gets (fun w => history_stack (self w)) ;;
    (if (0 <? List.length hs')%nat
     then top' <- lift (index_last hs') ;;
          match top' with
          | Some f => if PyStr.nonempty f then read_history_file f else ret tt
          | None => ret tt
          end
     else ret tt) ;;
    c <- pop_last completer_stack set_completer_stack ;;
    set_completer c
  else ret tt.

(* ------------------------------------------------------------------- *)
(** *** Substitution *)

(** The loop [for name in self.variables: line = line.replace(...)]. *)
Definition substitute_variables (vars : list (string * string)) (line : string) : string :=
  fold_left (fun l kv => PyStr.replace l ("$" ++ fst kv) (snd kv)) vars line.

(** The test that guards history expansion. *)
Definition has_bang (line : string) : bool :=
  (0 <=? PyStr.find line "!!")%Z || (0 <=? PyStr.find line "!$")%Z
  || (0 <=? PyStr.find line "!^")%Z || (0 <=? PyStr.find line "!*")%Z.

Definition do_last_command_substitutions (line : string) : M string :=
  last <- gets (fun w => lastcmd (self w)) ;;
  if negb (String.eqb last EmptyString) then
    argv <- lift (Shlex.split last) ;;
    let line := PyStr.replace line "!!" last in
    a <- lift (index_last argv) ;;
    let line := PyStr.replace line "!$" a in
    b <- lift (index argv 1) ;;
    let line := PyStr.replace line "!^" b in
    let line := PyStr.replace line "!*" (PyStr.join " " (skipn 1 argv)) in
    ret line
  else
    err <- gets (fun w => stderr (self w)) ;;
    write err ("no previous command" ++ PyStr.nl) ;;
    ret EmptyString.

Definition do_substitutions (line : string) : M string :=
  if negb (PyStr.nonempty line) then ret EmptyString
  else
    vars <- gets (fun w => variables (self w)) ;;
    let line := substitute_variables vars line in
    if has_bang line then do_last_command_substitutions line
    else ret line.

(* ------------------------------------------------------------------- *)
(** *** Redirection *)

(** Modelled from the spec: the class [Tee] of [WithSecure.common.system]
    is not among the sources.  Its constructor opens the destination for
    writing in the chosen mode and returns a new writer that duplicates
    every write to the previous output and to the file; a failing [open]
    raises [IOError].  Every [open] is recorded in [opened]. *)
Definition new_tee (console : stream) (destination : string) (mode : open_mode) : M stream :=
  modify (on_proc (fun p => set_opened (opened p ++ [(destination, mode)])%list p)) ;;
  match open_error host destination mode with
  | Some (errno, strerror) => raise (IOError errno strerror)
  | None =>
      oid <- gets (fun w => next_oid (proc w)) ;;
      modify (on_proc (set_next_oid (S oid))) ;;
      ret (Tee oid console destination mode)
  end.

Definition build_tee (console : stream) (destination : string) : M stream :=
  match destination with
  | EmptyString => raise (IndexError "string index out of range")
  | String c rest =>
      if Ascii.eqb c ">"
      then new_tee console (PyStr.strip rest) ModeA
      else new_tee console (PyStr.strip destination) ModeW
  end.

Definition redirect_output (line : string) : M string :=
  match PyStr.rsplit1 ">" line with
  | [line; destination] =>
      if (0 <? String.length destination)%nat then
        installed <-
          try_except
            (out <- gets (fun w => stdout (self w)) ;;
             modify (on_self (set_output_redirected (Some out))) ;;
             console <- gets (fun w => stdout (self w)) ;;
             tee <- build_tee console destination ;;
             modify (on_self (set_stdout tee)) ;;
             ret true)
            (fun e =>
               match e with
               | IOError _ strerror =>
                   Some (err <- gets (fun w => stderr (self w)) ;;
                         write err ("Error processing your redirection target: "
                                      ++ strerror ++ ".e" ++ PyStr.nl) ;;
                         ret false)
               | _ => None
               end) ;;
        if installed then ret line else ret EmptyString
      else
        err <- gets (fun w => stderr (self w)) ;;
        write err ("No redirection target specified." ++ PyStr.nl) ;;
        ret EmptyString
  | l =>
      raise (ValueError ("not enough values to unpack (expected 2, got "
                           ++ PyStr.of_nat (List.length l) ++ ")"))
  end.

Definition postcmd (stop : bool) (line : string) : M bool :=
  saved <- gets (fun w => output_redirected (self w)) ;;
  match saved with
  | Some original =>
      modify (on_self (set_stdout original)) ;;
      modify (on_self (set_output_redirected None)) ;;
      ret stop
  | None => ret stop
  end.

Definition precmd (line : string) : M string :=
  line <- do_substitutions line ;;
  parsed_line <- lift (Shlex.split line) ;;
  if in_list ">" parsed_line || in_list ">>" parsed_line
  then redirect_output line
  else ret line.

(* ------------------------------------------------------------------- *)
(** *** Dispatch: [parseline] and [onecmd] of [cmd.Cmd], and [default] *)

(** [self.identchars]: the ASCII letters, the digits and the underscore. *)
Definition is_identchar (c : ascii) : bool :=
  let n := nat_of_ascii c in
  ((97 <=? n)%nat && (n <=? 122)%nat) || ((65 <=? n)%nat && (n <=? 90)%nat)
  || ((48 <=? n)%nat && (n <=? 57)%nat) || (n =? 95)%nat.

(** [line[:i], line[i:]] for the first [i] with [line[i]] not in
    [identchars]. *)
Fixpoint span_ident (s : string) : string * string :=
  match s with
  | EmptyString => (EmptyString, EmptyString)
  | String c s' =>
      if is_identchar c
      then let (a, b) := span_ident s' in (String c a, b)
      else (EmptyString, s)
  end.

Definition parseline (line : string) : option string * option string * string :=
  let line := PyStr.strip line in
  let parts (line : string) :=
    let (cmd, arg) := span_ident line in (Some cmd, Some (PyStr.strip arg), line) in
  match line with
  | EmptyString => (None, None, line)
  | String c rest =>
      if Ascii.eqb c "?" then parts ("help " ++ rest)
      else if Ascii.eqb c "!" then
        match getattr_do "shell" with
        | Some _ => parts ("shell " ++ rest)
        | None => (None, None, line)
        end
      else parts line
  end.

(** [emptyline]: nothing is done. *)
Definition emptyline : M bool := ret false.

Definition default (line : string) : M bool :=
  argv <- lift (Shlex.split line) ;;
  first <- lift (index argv 0) ;;
  als <- gets (fun w => aliases (self w)) ;;
  match lookup first als with
  | Some target =>
      match getattr_do target with
      | Some func => _ <- func (PyStr.join " " (skipn 1 argv)) ;; ret false
      | None =>
          raise (AttributeError
                   ("'Cmd' object has no attribute 'do_" ++ target ++ "'"))
      end
  | None =>
      out <- gets (fun w => stdout (self w)) ;;
      write out ("*** Unknown syntax: " ++ line ++ PyStr.nl) ;;
      ret false
  end.

Definition onecmd (line : string) : M bool :=
  match parseline line with
  | (cmd, arg, line) =>
      if negb (PyStr.nonempty line) then emptyline
      else
        match cmd, arg with
        | Some cmd, Some arg =>
            modify (on_self (set_lastcmd line)) ;;
            (if String.eqb line "EOF"
             then modify (on_self (set_lastcmd EmptyString))
             else ret tt) ;;
            if String.eqb cmd EmptyString then default line
            else match getattr_do cmd with
                 | Some func => func arg
                 | None => default line
                 end
        | _, _ => default line
        end
  end.

(* ------------------------------------------------------------------- *)
(** *** The commands the class defines *)

Definition do_echo (arguments : string) : M bool :=
  line <- do_substitutions arguments ;;
  print line ;;
  ret false.

Definition do_env (arguments : string) : M bool :=
  vars <- gets (fun w => variables (self w)) ;;
  fold_left (fun m kv => m ;; print (fst kv ++ "=" ++ snd kv)) vars (ret tt) ;;
  ret false.

Definition do_set (arguments : string) : M bool :=
  kvs <- lift (Shlex.split arguments) ;;
  modify (on_self (fun s =>
    set_variables
      (fold_left (fun d kv =>
                    match split_first "=" kv with
                    | Some (key, value) => dict_set key value d
                    | None => d
                    end) kvs (variables s)) s)) ;;
  ret false.

Definition do_unset (arguments : string) : M bool :=
  keys <- lift (Shlex.split arguments) ;;
  modify (on_self (fun s =>
    set_variables (fold_left (fun d key => dict_del key d) keys (variables s)) s)) ;;
  ret false.

(* ------------------------------------------------------------------- *)
(** *** The command loop *)

Definition handleException (e : exn) (shutup : bool) : M unit :=
  if shutup then ret tt
  else
    err <- gets (fun w => stderr (self w)) ;;
    write err ("Exception occured: " ++ str_exn e ++ PyStr.nl).

(** Modelled from the spec: [checkVer] asks [drozer.meta], which is not
    among the sources, for the latest versions over the network, prints a
    notice when there is one and swallows every exception; what it prints
    is taken from the host. *)
Definition checkVer : M unit :=
  fold_left (fun m notice => m ;; print notice) (version_notices host) (ret tt).

Definition preloop : M unit :=
  i <- gets (fun w => intro (self w)) ;;
  (if truthy i
   then out <- gets (fun w => stdout (self w)) ;;
        write out (match i with Some t => t | None => EmptyString end ++ PyStr.nl)
   else ret tt) ;;
  checkVer.

(** [postloop] of [cmd.Cmd] does nothing. *)
Definition postloop : M unit := ret tt.

(** The next line: from [cmdqueue] if it has one, else from the input,
    whose end reads as the command [EOF].  [stdin] holds the lines that are
    left, without their line ends. *)
Definition read_line : M string :=
  q <- gets (fun w => cmdqueue (self w)) ;;
  match q with
  | line :: q' => modify (on_self (set_cmdqueue q')) ;; ret line
  | [] =>
      raw <- gets (fun w => use_rawinput (self w)) ;;
      p <- gets (fun w => prompt (self w)) ;;
      (if raw then write SysStdout p
       else out <- gets (fun w => stdout (self w)) ;; write out p) ;;
      input <- gets (fun w => stdin (proc w)) ;;
      match input with
      | line :: rest =>
          modify (on_proc (set_stdin rest)) ;;
          ret (if raw then line
               else PyStr.rstrip_chars [PyStr.chr 13; PyStr.newline] line)
      | [] => ret "EOF"
      end
  end.

Definition quote_message_1 : string :=
  "Failed to parse your command, because there were unmatched quotation marks."
  ++ PyStr.nl.

Definition quote_message_2 : string :=
  let dq := String PyStr.dquote EmptyString in
  let bs := String PyStr.backslash EmptyString in
  "Did you want a single ' or " ++ dq ++ "? You need to escape it ("
  ++ bs ++ "' or " ++ bs ++ dq ++ ") or surround it with "
  ++ "the other type of quotation marks (" ++ dq ++ "'" ++ dq ++ " or '" ++ dq ++ "')."
  ++ PyStr.nl ++ PyStr.nl.

(** The body of [except ValueError as e]; it leaves [stop] as it was,
    which is false while the loop runs. *)
Definition on_value_error (e : exn) : M bool :=
  message <- lift (exn_message e) ;;
  if String.eqb message "No closing quotation" then
    err <- gets (fun w => stderr (self w)) ;;
    write err quote_message_1 ;;
    err' <- gets (fun w => stderr (self w)) ;;
    write err' quote_message_2 ;;
    ret false
  else raise e.

(** The three calls inside the inner [try]. *)
Definition run_command (line : string) : M bool :=
  line <- precmd line ;;
  stop <- onecmd line ;;
  postcmd stop line.

(** One turn of the [while] loop: read a line, then the inner [try]. *)
Definition loop_turn : M bool :=
  line <- read_line ;;
  try_except (run_command line)
    (fun e => match e with
              | ValueError _ => Some (on_value_error e)
              | _ => None
              end).

(** [while not stop]; [None] when [fuel] turns were not enough to see the
    loop end. *)
Fixpoint while_not_stop (fuel : nat) : M (option unit) :=
  match fuel with
  | O => ret None
  | S fuel' =>
      stop <- loop_turn ;;
      if stop then ret (Some tt) else while_not_stop fuel'
  end.

Definition editing (w : World) : bool :=
  use_rawinput (self w) && truthy (completekey (self w)).

Definition cmdloop (fuel : nat) : M (option unit) :=
  preloop ;;
  ed <- gets editing ;;
  (if ed
   then hf <- gets (fun w => history_file (self w)) ;; push_completer CmdComplete hf
   else ret tt) ;;
  try_finally
    (try_except
       (r <- while_not_stop fuel ;; postloop ;; ret r)
       (fun e => if is_exception e
                 then Some (print "Loop exception" ;;
                            handleException e false ;;
                            ret (Some tt))
                 else None))
    (ed' <- gets editing ;; if ed' then pop_completer else ret tt).

End Shell.

(* ===================================================================== *)
(** ** What the statements below are about *)
(* ===================================================================== *)

(** *** Sequences of pushes and pops *)

(** [ms[0](); ms[1](); ...]: the calls one after the other; the first one
    that raises ends the sequence. *)
Fixpoint run_all (ms : list (M unit)) : M unit :=
  match ms with
  | [] => ret tt
  | m :: ms' => m ;; run_all ms'
  end.

(** One [push_completer] call per element of [args], then as many
    [pop_completer] calls. *)
Definition push_then_pop (host : Host) (args : list (completer * option string)) : M unit :=
  run_all (map (fun a => push_completer host (fst a) (snd a)) args
           ++ repeat (pop_completer host) (List.length args))%list.

(** No history file operation is refused. *)
Definition reliable (host : Host) : Prop :=
  forall path, write_history_error host path = None
               /\ read_history_error host path = None.

(** The history file [p] is on disk. *)
Definition exists_on_disk (p : string) (w : World) : Prop :=
  disk_lookup p (disk (proc w)) <> None.

(** If the top of the history stack [hs] names a file, the file is on disk. *)
Definition top_exists (hs : list (option string)) (w : World) : Prop :=
  forall hs' f, hs = (hs' ++ [Some f])%list -> PyStr.nonempty f = true ->
                exists_on_disk f w.

(** What a balanced sequence leaves as it found it. *)
Definition same_context (w w1 : World) : Prop :=
  history_stack (self w1) = history_stack (self w)
  /\ completer_stack (self w1) = completer_stack (self w)
  /\ rl_completer (rl w1) = rl_completer (rl w)
  /\ completekey (self w1) = completekey (self w)
  /\ (forall q, exists_on_disk q w -> exists_on_disk q w1).

(** The end of [pop_completer], from [readline.clear_history()] on, named
    so that the method can be reasoned about in two steps. *)
Definition pop_completer_end (host : Host) : M unit :=
  clear_history ;;
  hs' <- gets (fun w => history_stack (self w)) ;;
  (if (0 <? List.length hs')%nat
   then top' <- lift (index_last hs') ;;
        match top' with
        | Some f => if PyStr.nonempty f then read_history_file host f else ret tt
        | None => ret tt
        end
   else ret tt) ;;
  c <- pop_last completer_stack set_completer_stack ;;
  set_completer c.

(** The end of [push_completer], from the push on the history stack on,
    named for the same purpose. *)
Definition push_completer_end (host : Host) (history_file : option string) : M unit :=
  modify (on_self (fun s => set_history_stack (history_stack s ++ [history_file])%list s)) ;;
  clear_history ;;
  (match history_file with
   | Some f =>
       ex <- gets (path_exists f) ;;
       if ex then
         try_except (read_history_file host f)
           (fun e =>
              match e with
              | IOError _ _ =>
                  Some (if PyStr.contains "darwin" (PyStr.lower (platform host))
                           && String.eqb (PyStr.strip (str_exn e))
                                         "[Errno 1] Operation not permitted"
                        then ret tt
                        else raise e)
              | _ => None
              end)
       else ret tt
   | None => ret tt
   end) ;;
  key <- gets (fun w => completekey (self w)) ;;
  match key with
  | Some k =>
      modify (on_rl (fun r => set_rl_bindings (rl_bindings r ++ [String.append k ": complete"])%list r))
  | None =>
      raise (OtherError "TypeError"
               "unsupported operand type(s) for +: 'NoneType' and 'str'")
  end.

(** *** The states a redirection leaves *)

(** The states [__redirect_output] can leave: the saved stream is set and
    the [open] is made; then either the tee is the new output, or the
    refusal is reported. *)
Definition opening (name : string) (mode : open_mode) (w : World) : World :=
  on_proc (fun p => set_opened (opened p ++ [(name, mode)])%list p)
          (on_self (set_output_redirected (Some (stdout (self w)))) w).

Definition installed (name : string) (mode : open_mode) (w : World) : World :=
  on_self (set_stdout (Tee (next_oid (proc w)) (stdout (self w)) name mode))
          (on_proc (set_next_oid (S (next_oid (proc w)))) (opening name mode w)).

Definition refusal_message (strerror : string) : string :=
  "Error processing your redirection target: " ++ strerror ++ ".e" ++ PyStr.nl.

Definition refused (name : string) (mode : open_mode) (strerror : string) (w : World) : World :=
  wrote (stderr (self w)) (refusal_message strerror) (opening name mode w).

Definition no_target_message : string :=
  "No redirection target specified." ++ PyStr.nl.

(** *** Lines and errors *)

(** [c in s] for a character [c]. *)
Fixpoint has_char (c : ascii) (s : string) : bool :=
  match s with
  | EmptyString => false
  | String c' s' => Ascii.eqb c' c || has_char c s'
  end.

(** What [argv[i]] raises out of range. *)
Definition index_error : exn := IndexError "list index out of range".

(** What [e.message] raises for a [ValueError]. *)
Definition no_message_attribute : exn :=
  AttributeError "'ValueError' object has no attribute 'message'".

(** *** Example sessions *)

(** A session right after [__init__], with an idle line editor, no input
    and an empty disk. *)
Definition example_world : World :=
  mkWorld init_cmd (mkReadline None " /" [] []) (mkProcess [] [] [] 0 []).

(** A host with [readline] where no file operation is refused. *)
Definition example_host : Host :=
  mkHost true "Linux" (fun _ _ => None) (fun _ => None) (fun _ => None) [].

(** A host whose operating system refuses to open a file with an empty name,
    as [open] does. *)
Definition strict_host : Host :=
  mkHost true "Linux"
         (fun path _ => if String.eqb path EmptyString
                        then Some (2, "No such file or directory") else None)
         (fun _ => None) (fun _ => None) [].

(** A host on which [/root/out.txt] cannot be opened. *)
Definition denying_host : Host :=
  mkHost true "Linux"
         (fun path _ => if String.eqb path "/root/out.txt"
                        then Some (13, "Permission denied") else None)
         (fun _ => None) (fun _ => None) [].

(** An application without commands of its own: every lookup of a handler
    fails. *)
Definition no_commands : string -> option (string -> M bool) := fun _ => None.

(** Commands for the examples: [foo] writes its argument to the session's
    output, [boom] raises. *)
Definition example_commands : string -> option (string -> M bool) :=
  fun name =>
    if String.eqb name "foo"
    then Some (fun arg => out <- gets (fun w => stdout (self w)) ;;
                          write out arg ;; ret false)
    else if String.eqb name "boom"
    then Some (fun _ => raise (OtherError "RuntimeError" "boom"))
    else None.

Definition last_example : string := "run app.package.info -a com.example.app".

Definition example_pushes : list (completer * option string) :=
  [(CmdComplete, Some ".drozer_history"); (HostCompleter 1, None);
   (HostCompleter 2, Some ".shell_history")].

(** *** Words and blank lines *)

(** Every character of [s] satisfies [p]. *)
Fixpoint all_chars (p : ascii -> bool) (s : string) : bool :=
  match s with
  | EmptyString => true
  | String c s' => p c && all_chars p s'
  end.

(** The characters [shlex] takes for white space. *)
Definition shell_space (c : ascii) : bool := PyStr.char_in c Shlex.whitespace.

(** A character that [shlex] passes into a token as it is: not white space,
    not a quote, not the escape character. *)
Definition plain_char (c : ascii) : bool :=
  negb (PyStr.char_in c Shlex.whitespace)
  && negb (PyStr.char_in c Shlex.quotes)
  && negb (PyStr.char_in c Shlex.escape).

(** A non-empty word of such characters. *)
Definition plain_word (s : string) : bool :=
  PyStr.nonempty s && all_chars plain_char s.

(** *** Completion: the method [complete] *)

(** The attribute [self.completion_matches]: not set yet, [None] (what
    [completefilename] returns), or a list of candidates. *)
Inductive completion_matches : Type :=
| Unset
| NoMatches
| Matches (l : list string).

(** [s[n:]] *)
Fixpoint slice_from (n : nat) (s : string) : string :=
  match n, s with
  | O, _ => s
  | S n', String _ s' => slice_from n' s'
  | S _, EmptyString => EmptyString
  end.

(** [s.endswith(suffix)] *)
Definition endswith (s suffix : string) : bool :=
  (String.length suffix <=? String.length s)%nat
  && String.eqb (slice_from (String.length s - String.length suffix) s) suffix.

Definition not_subscriptable : exn :=
  OtherError "TypeError" "'NoneType' object is not subscriptable".

Definition cannot_concatenate : exn :=
  OtherError "TypeError"
    ("can only concatenate str (not " ++ String PyStr.dquote "NoneType"
       ++ String PyStr.dquote ") to str").

Section Completion.

Variable host : Host.

(** [os.path.sep] *)
Variable sep : string.

(** [self.get_names()]: the names of the attributes of the class. *)
Variable get_names : list string.

Variable getattr_do : string -> option (string -> M bool).

(** [getattr(self, 'complete_' + command)]: the completers of the commands,
    which take [text], [line], [begidx] and [endidx] and return the list of
    candidates; [None] when the lookup raises [AttributeError]. *)
Variable getattr_complete :
  string -> option (string -> string -> Z -> Z -> result (list string)).

(** [completenames] of [cmd.Cmd]: the commands whose name starts with
    [text]. *)
Definition completenames (text : string) : list string :=
  map (slice_from 3) (filter (fun a => prefix ("do_" ++ text) a) get_names).

(** [self.completion_matches[state]] inside the final [try]: an
    [IndexError] and a [TypeError] give [None]; a missing attribute
    raises. *)
Definition nth_match (cm : completion_matches) (state : nat) : result (option string) :=
  match cm with
  | Unset => Raise (AttributeError "'Cmd' object has no attribute 'completion_matches'")
  | NoMatches => Ok None
  | Matches l => Ok (nth_error l state)
  end.

(** From [matches = compfunc(...)] on: the candidates get a space, but for
    a single one that ends in the path separator. *)
Definition store_matches (cm : completion_matches) (r : result (list string))
  : result (option string) * completion_matches :=
  match r with
  | Raise e => (Raise e, cm)
  | Ok matches =>
      let cm' :=
        Matches (if (List.length matches =? 1)%nat
                    && match matches with
                       | m :: _ => endswith m sep
                       | [] => false
                       end
                 then matches
                 else map (fun s => s ++ " ") matches) in
      (nth_match cm' 0, cm')
  end.

(** [complete(text, state)], given what [readline] reports (the line
    buffer and the bounds of the word) and the attribute
    [completion_matches], which it returns with the result. *)
Definition complete (origline : string) (get_begidx get_endidx : Z)
           (text : string) (state : nat) (cm : completion_matches)
  : result (option string) * completion_matches :=
  match state with
  | O =>
      if has_readline host then
        let line := PyStr.lstrip origline in
        let stripped := (Z.of_nat (String.length origline) - Z.of_nat (String.length line))%Z in
        let begidx := (get_begidx - stripped)%Z in
        let endidx := (get_endidx - stripped)%Z in
        if (0 <? begidx)%Z then
          if PyStr.contains ">" line && (PyStr.find line ">" <? begidx)%Z then
            (Raise not_subscriptable, NoMatches)
          else
            match parseline getattr_do line with
            | (Some command, _, _) =>
                if String.eqb command EmptyString
                then store_matches cm (Ok [])
                else match getattr_complete command with
                     | Some compfunc => store_matches cm (compfunc text line begidx endidx)
                     | None => store_matches cm (Ok [])
                     end
            | (None, _, _) => (Raise cannot_concatenate, cm)
            end
        else store_matches cm (Ok (completenames text))
      else (nth_match cm 0, cm)
  | S _ => (nth_match cm state, cm)
  end.

End Completion.

(** The start of the word within the line stripped on the left, as
    [complete] computes it from what [readline] reports. *)
Definition begidx_of (origline : string) (get_begidx : Z) : Z :=
  (get_begidx
   - (Z.of_nat (String.length origline)
      - Z.of_nat (String.length (PyStr.lstrip origline))))%Z.

(** *** What a command has no business with *)

(** The completion context and the mode of input are as before, and no
    history file has gone. *)
Definition context_kept (w w' : World) : Prop :=
  same_context w w' /\ use_rawinput (self w') = use_rawinput (self w).

(** A call that keeps them, whatever state it starts in and however it
    ends. *)
Definition keeps_context {A} (m : M A) : Prop :=
  forall w, context_kept w (snd (m w)).

(** Handlers that keep them. *)
Definition handlers_keep_context (getattr_do : string -> option (string -> M bool)) : Prop :=
  forall name h arg, getattr_do name = Some h -> keeps_context (h arg).

(** The mode of input is as before. *)
Definition raw_kept (w w' : World) : Prop :=
  use_rawinput (self w') = use_rawinput (self w).

(** A call after which the state is related by [R] to the state before,
    whatever state it starts in and however it ends. *)
Definition preserves (R : World -> World -> Prop) {A} (m : M A) : Prop :=
  forall w, R w (snd (m w)).

(** The input is at its end and nothing is queued, and [EOF] is no alias. *)
Definition at_end_of_input (w : World) : Prop :=
  cmdqueue (self w) = [] /\ stdin (proc w) = []
  /\ lookup "EOF" (aliases (self w)) = None.

(** *** More example sessions *)

(** An application with a command [list] that writes its argument and a
    command [quit] that stops the loop. *)
Definition alias_commands : string -> option (string -> M bool) :=
  fun name =>
    if String.eqb name "list"
    then Some (fun arg => out <- gets (fun w => stdout (self w)) ;;
                          write out arg ;; ret false)
    else if String.eqb name "quit" then Some (fun _ => ret true)
    else None.

Definition alias_world : World :=
  on_self (set_aliases [("ls", "list"); ("q", "quit")]) example_world.

(** An application whose command [leave] calls [sys.exit(0)]. *)
Definition leaving_commands : string -> option (string -> M bool) :=
  fun name =>
    if String.eqb name "leave"
    then Some (fun _ => raise (OtherError "SystemExit" "0"))
    else None.

(** A session inside [cmdloop]: the shell's completer is installed, its
    history file is on the stack, and two lines are in the history. *)
Definition history_world : World :=
  mkWorld (set_history_stack [Some ".drozer_history"]
             (set_completer_stack [None] init_cmd))
          (mkReadline (Some CmdComplete) " " ["list"; "run app.package.list"] ["tab: complete"])
          (mkProcess [] [] [] 0 []).


(** The session of [history_world] after an empty line and a line pasted
    with a line end in it were entered. *)
Definition pasted_world : World :=
  on_rl (set_rl_history ["list"; EmptyString; "quit"; "a" ++ PyStr.nl ++ "b"])
        history_world.

(** The attribute names of an application with the commands [list], [load]
    and [quit]. *)
Definition example_names : list string :=
  ["cmdloop"; "complete"; "do_list"; "do_load"; "do_quit"; "precmd"].

(** No command has a completer of its own. *)
Definition no_completers :
  string -> option (string -> string -> Z -> Z -> result (list string)) :=
  fun _ => None.

(** A host on which no history file can be written. *)
Definition read_only_host : Host :=
  mkHost true "Linux" (fun _ _ => None)
         (fun _ => Some (13, "Permission denied")) (fun _ => None) [].

(* ===================================================================== *)
(** ** Facts about the string operations *)
(* ===================================================================== *)

Section StringFacts.
Import PyStr.

Lemma prefix_refl (s : string) : prefix s s = true.
Proof.
  induction s as [|c s IH]; simpl; [reflexivity|].
  destruct (ascii_dec c c); [assumption | congruence].
Qed.

Lemma prefix_app (s t : string) : prefix s (s ++ t) = true.
Proof.
  induction s as [|c s IH]; simpl; [destruct t; reflexivity|].
  destruct (ascii_dec c c); [assumption | congruence].
Qed.

(** Once the characters still to be passed over reach the end of the
    string, nothing more is produced. *)
Lemma replace_go_skip_all (old new s : string) (k : nat) :
  String.length s <= k -> replace_go old new k s = EmptyString.
Proof.
  revert k; induction s as [|c s IH]; intros k Hk; simpl in *; [reflexivity|].
  destruct k as [|k]; [lia|]. apply IH; lia.
Qed.

Lemma replace_go_skip (old new s t : string) :
  replace_go old new (String.length s) (s ++ t) = replace_go old new 0 t.
Proof.
  induction s as [|c s IH]; simpl; [reflexivity | assumption].
Qed.

(** Replacing at an occurrence in front: the new text, then the
    replacement of what follows the occurrence; the new text itself is not
    looked at again. *)
Lemma replace_at_head (c : ascii) (old' new t : string) :
  replace (String c old' ++ t) (String c old') new
  = new ++ replace t (String c old') new.
Proof.
  unfold replace. change (String c old' ++ t) with (String c (old' ++ t)).
  cbn [replace_go].
  change (String c (old' ++ t)) with (String c old' ++ t).
  rewrite prefix_app.
  replace (String.length (String c old') - 1) with (String.length old')
    by (cbn [String.length]; lia).
  rewrite replace_go_skip. reflexivity.
Qed.

Lemma replace_empty (old new : string) :
  old <> EmptyString -> replace EmptyString old new = EmptyString.
Proof. destruct old; [congruence | reflexivity]. Qed.

Lemma app_empty_r (s : string) : s ++ EmptyString = s.
Proof. induction s; simpl; congruence. Qed.

(** A string that is the whole of [old] becomes [new], whatever [new]
    contains. *)
Lemma replace_whole (old new : string) :
  old <> EmptyString -> replace old old new = new.
Proof.
  destruct old as [|c old']; [congruence|]; intros _.
  rewrite <- (app_empty_r (String c old')) at 1.
  rewrite replace_at_head, replace_empty by discriminate.
  apply app_empty_r.
Qed.

Lemma find_from_absent (sub s : string) (i : Z) :
  (0 <= i)%Z -> find_from sub s i = (-1)%Z ->
  prefix sub s = false /\
  match s with
  | EmptyString => True
  | String _ s' => find_from sub s' (i + 1) = (-1)%Z
  end.
Proof.
  intros Hi H. destruct s as [|c s']; cbn [find_from] in H.
  - destruct (prefix sub EmptyString); [lia | auto].
  - destruct (prefix sub (String c s')); [lia | auto].
Qed.

Lemma replace_go_absent (old new s : string) (i : Z) :
  (0 <= i)%Z -> find_from old s i = (-1)%Z -> replace_go old new 0 s = s.
Proof.
  revert i; induction s as [|c s IH]; intros i Hi H; [reflexivity|].
  destruct (find_from_absent _ _ _ Hi H) as [Hp Hs].
  cbn [replace_go]. rewrite Hp. f_equal. apply (IH (i + 1)%Z); [lia | exact Hs].
Qed.

(** Where [old] does not occur, nothing changes. *)
Lemma replace_absent (s old new : string) :
  old <> EmptyString -> find s old = (-1)%Z -> replace s old new = s.
Proof.
  intros Hne H. destruct old as [|c old']; [congruence|].
  unfold replace. apply (replace_go_absent _ _ _ 0%Z); [lia | exact H].
Qed.

Lemma rsplit_last_spec (sep : ascii) (s l r : string) :
  rsplit_last sep s = Some (l, r) ->
  s = l ++ String sep r /\ rsplit_last sep r = None.
Proof.
  revert l; induction s as [|c s IH]; intros l H; simpl in H; [discriminate|].
  destruct (rsplit_last sep s) as [[l' r']|] eqn:E.
  - inversion H; subst. destruct (IH l' eq_refl) as [-> Hr].
    split; [reflexivity | assumption].
  - destruct (Ascii.eqb c sep) eqn:Ec; [|discriminate].
    apply Ascii.eqb_eq in Ec. inversion H; subst. split; [reflexivity | assumption].
Qed.

Lemma rsplit_last_none_head (sep c : ascii) (s : string) :
  rsplit_last sep (String c s) = None -> Ascii.eqb c sep = false.
Proof.
  simpl. destruct (rsplit_last sep s) as [[? ?]|]; [discriminate|].
  destruct (Ascii.eqb c sep); [discriminate | reflexivity].
Qed.

(** A line that ends in the separator splits into its body and an empty
    rest. *)
Lemma rsplit_last_at_end (sep : ascii) (body : string) :
  rsplit_last sep (body ++ String sep EmptyString) = Some (body, EmptyString).
Proof.
  induction body as [|c body IH]; simpl.
  - rewrite Ascii.eqb_refl. reflexivity.
  - rewrite IH. reflexivity.
Qed.

End StringFacts.

(* ===================================================================== *)
(** ** Substitution *)
(* ===================================================================== *)

(** C3, as stated, fails: after [run app.package.info -a com.example.app]
    the token [!^] does not expand to [run]. *)
Lemma bang_caret_is_not_the_command_name :
  fst (do_last_command_substitutions "!^"
         (on_self (set_lastcmd last_example) example_world)) <> Ok "run".
Proof. vm_compute. discriminate. Qed.

(** C3, amended: when the last command is
    [run app.package.info -a com.example.app], [!$] expands to
    [com.example.app], [!^] to the first argument [app.package.info], [!*]
    to [app.package.info -a com.example.app] and [!!] to the whole last
    command, in any session and without any other effect. *)
Theorem history_bang_expansions (w : World) :
  let w' := on_self (set_lastcmd last_example) w in
  do_last_command_substitutions "!$" w' = (Ok "com.example.app", w')
  /\ do_last_command_substitutions "!^" w' = (Ok "app.package.info", w')
  /\ do_last_command_substitutions "!*" w' = (Ok "app.package.info -a com.example.app", w')
  /\ do_last_command_substitutions "!!" w' = (Ok last_example, w').
Proof. repeat split; reflexivity. Qed.

Lemma dollar_name_nonempty (n : string) : "$" ++ n <> EmptyString.
Proof. discriminate. Qed.

Lemma substitute_variables_app (vs1 vs2 : list (string * string)) (line : string) :
  substitute_variables (vs1 ++ vs2)%list line
  = substitute_variables vs2 (substitute_variables vs1 line).
Proof. unfold substitute_variables. apply fold_left_app. Qed.

Lemma substitute_variables_empty (vars : list (string * string)) :
  substitute_variables vars EmptyString = EmptyString.
Proof.
  induction vars as [|[n v] vars IH]; [reflexivity|].
  change (substitute_variables ((n, v) :: vars) EmptyString)
    with (substitute_variables vars (PyStr.replace EmptyString ("$" ++ n) v)).
  rewrite replace_empty by apply dollar_name_nonempty. exact IH.
Qed.

(** C5, as stated, fails: with [A] set to [$B] and then [B] to [x], the
    line [$A], in which [$B] does not occur, becomes [x]: the [$B] that the
    value of [A] brought in was expanded. *)
Lemma substituted_value_is_expanded_again :
  PyStr.find "$A" "$B" = (-1)%Z
  /\ fst ((_ <- do_set "A=$B B=x" ;; do_substitutions "$A") example_world) = Ok "x".
Proof. split; reflexivity. Qed.

(** The characters of an occurrence that are still to be passed over are
    dropped from the front of what is left. *)
Lemma replace_go_slice (old new s : string) (k : nat) :
  PyStr.replace_go old new k s = PyStr.replace_go old new 0 (slice_from k s).
Proof.
  revert k; induction s as [|c s IH]; intros k.
  - destruct k; reflexivity.
  - destruct k as [|k]; [reflexivity|]. cbn [PyStr.replace_go slice_from]. apply IH.
Qed.

(** C5, amended: for every variable table and every line, substitution
    makes one left-to-right replacement pass per variable, in table order,
    each pass over the whole result of the passes before it: substituting
    with a table [vars1] followed by [vars2] is substituting with [vars1]
    and then, in the result, with [vars2].  The pass of one variable goes
    through the line from the left: where [$name] starts it puts the value
    and goes on behind the occurrence, elsewhere it copies one character;
    so it never looks again at the text it has itself put in.  The passes
    of the variables that come later in the table do scan that text: with
    [a] set to [$b] and [b], later in the table, set to [v], the line [$a]
    becomes [v]. *)
Theorem substitution_passes_in_table_order
        (vars1 vars2 : list (string * string)) (line : string)
        (name value : string) (c : ascii) (rest : string) (a b v : string) :
  substitute_variables (vars1 ++ vars2)%list line
  = substitute_variables vars2 (substitute_variables vars1 line)
  /\ substitute_variables [(name, value)] EmptyString = EmptyString
  /\ substitute_variables [(name, value)] (String c rest)
     = (if prefix ("$" ++ name) (String c rest)
        then value ++ substitute_variables [(name, value)]
                        (slice_from (String.length name) rest)
        else String c (substitute_variables [(name, value)] rest))
  /\ substitute_variables [(a, "$" ++ b); (b, v)] ("$" ++ a) = v.
Proof.
  split; [apply substitute_variables_app|].
  split; [apply substitute_variables_empty|].
  split.
  - unfold substitute_variables. cbn [fold_left fst snd].
    change ("$" ++ name) with (String "$" name).
    unfold PyStr.replace. cbn [PyStr.replace_go].
    destruct (prefix (String "$" name) (String c rest)); [|reflexivity].
    f_equal.
    replace (String.length (String "$" name) - 1) with (String.length name)
      by (cbn [String.length]; lia).
    apply replace_go_slice.
  - unfold substitute_variables. cbn [fold_left fst snd].
    rewrite (replace_whole ("$" ++ a)) by apply dollar_name_nonempty.
    apply replace_whole, dollar_name_nonempty.
Qed.

Lemma substitution_passes_in_table_order_witness :
  substitute_variables ([("A", "$B")] ++ [("B", "x")])%list "echo $A"
  = substitute_variables [("B", "x")] (substitute_variables [("A", "$B")] "echo $A")
  /\ substitute_variables [("A", "$B")] EmptyString = EmptyString
  /\ substitute_variables [("A", "$B")] "$A!"
     = (if prefix ("$" ++ "A") "$A!"
        then "$B" ++ substitute_variables [("A", "$B")] (slice_from (String.length "A") "A!")
        else String "$" (substitute_variables [("A", "$B")] "A!"))
  /\ substitute_variables [("A", "$" ++ "B"); ("B", "x")] ("$" ++ "A") = "x".
Proof.
  exact (substitution_passes_in_table_order
           [("A", "$B")] [("B", "x")] "echo $A" "A" "$B" "$" "A!" "A" "B" "x").
Defined.

(** What the passes give on three lines: the value of [A], which holds
    [$A], is put in once; a [$B] that the value of [A] brings in is expanded
    by the later pass of [B] and left alone by an earlier one; and the later
    passes take the text as they find it, so that [$bc], brought in by [a],
    loses its [$b] to the pass of [b] before the pass of [bc] comes. *)
Example substitution_examples :
  substitute_variables [("A", "$Ax")] "$A $A" = "$Ax $Ax"
  /\ substitute_variables [("A", "$B"); ("B", "x")] "echo $A" = "echo x"
  /\ substitute_variables [("B", "x"); ("A", "$B")] "echo $A" = "echo $B"
  /\ substitute_variables [("a", "$bc"); ("b", "X"); ("bc", "Y")] "$a" = "Xc".
Proof. repeat split; reflexivity. Qed.

(** C7: with no previous command, history expansion of any line, so of any
    line with a history token, writes [no previous command] to the error
    stream and returns the empty string; it returns normally.  This is also
    what [__do_substitutions] does for a line that has a history token once
    the variables are substituted. *)
Theorem no_previous_command (w : World) (line : string) :
  lastcmd (self w) = EmptyString ->
  let w' := wrote (stderr (self w)) ("no previous command" ++ PyStr.nl) w in
  do_last_command_substitutions line w = (Ok EmptyString, w')
  /\ (has_bang (substitute_variables (variables (self w)) line) = true ->
      do_substitutions line w = (Ok EmptyString, w')).
Proof.
  intros Hlast w'.
  assert (Hd : forall l, do_last_command_substitutions l w = (Ok EmptyString, w')).
  { intros l. unfold do_last_command_substitutions, bind, gets.
    rewrite Hlast. reflexivity. }
  split; [apply Hd|].
  intros Hbang. unfold do_substitutions. destruct line as [|c line].
  - rewrite substitute_variables_empty in Hbang. discriminate.
  - cbn [PyStr.nonempty negb]. unfold bind at 1, gets at 1.
    rewrite Hbang. apply Hd.
Qed.

Lemma no_previous_command_witness :
  do_last_command_substitutions "echo !$" example_world
  = (Ok EmptyString, wrote SysStderr ("no previous command" ++ PyStr.nl) example_world)
  /\ do_substitutions "echo !$" example_world
     = (Ok EmptyString, wrote SysStderr ("no previous command" ++ PyStr.nl) example_world).
Proof.
  destruct (no_previous_command example_world "echo !$" eq_refl) as [H1 H2].
  split; [exact H1 | exact (H2 eq_refl)].
Defined.

(** C9: when the last command is not empty and splits into fewer than two
    tokens, history expansion of any line raises [IndexError], whichever
    tokens the line has: [argv[1]] is computed for every line.  So does
    [__do_substitutions] for a line that has a history token once the
    variables are substituted. *)
Theorem bang_without_argument_raises (w : World) (line : string) (argv : list string) :
  lastcmd (self w) <> EmptyString ->
  Shlex.split (lastcmd (self w)) = Ok argv ->
  List.length argv < 2 ->
  do_last_command_substitutions line w = (Raise index_error, w)
  /\ (has_bang (substitute_variables (variables (self w)) line) = true ->
      do_substitutions line w = (Raise index_error, w)).
Proof.
  intros Hne Hsplit Hlen.
  assert (Hd : forall l, do_last_command_substitutions l w = (Raise index_error, w)).
  { intros l. unfold do_last_command_substitutions, bind, gets, lift.
    destruct (String.eqb (lastcmd (self w)) EmptyString) eqn:E.
    - apply String.eqb_eq in E. contradiction.
    - cbn [negb]. rewrite Hsplit.
      destruct argv as [|x [|y argv]]; [reflexivity | reflexivity | simpl in Hlen; lia]. }
  split; [apply Hd|].
  intros Hbang. unfold do_substitutions. destruct line as [|c line].
  - rewrite substitute_variables_empty in Hbang. discriminate.
  - cbn [PyStr.nonempty negb]. unfold bind at 1, gets at 1.
    rewrite Hbang. apply Hd.
Qed.

Lemma bang_without_argument_raises_witness :
  let w := on_self (set_lastcmd "help") example_world in
  do_last_command_substitutions "echo !!" w = (Raise index_error, w)
  /\ (has_bang (substitute_variables (variables (self w)) "echo !!") = true ->
      do_substitutions "echo !!" w = (Raise index_error, w)).
Proof.
  refine (bang_without_argument_raises
            (on_self (set_lastcmd "help") example_world) "echo !!" ["help"] _ eq_refl _).
  - discriminate.
  - simpl. lia.
Defined.

(* ===================================================================== *)
(** ** The stack of completers *)
(* ===================================================================== *)

Section CompleterStack.

Variable host : Host.

Lemma run_all_app (xs ys : list (M unit)) (w : World) :
  run_all (xs ++ ys) w = (run_all xs ;; run_all ys) w.
Proof.
  revert w; induction xs as [|x xs IH]; intros w; cbn [run_all app].
  - reflexivity.
  - unfold bind in *. destruct (x w) as [[[]|e] w1]; [|reflexivity].
    apply IH.
Qed.

Lemma snoc_cases {A} (l : list A) : l = [] \/ exists l' x, l = (l' ++ [x])%list.
Proof.
  destruct (rev l) as [|x r] eqn:E.
  - left. apply (f_equal (@rev A)) in E. rewrite rev_involutive in E. exact E.
  - right. exists (rev r), x. apply (f_equal (@rev A)) in E.
    rewrite rev_involutive in E. exact E.
Qed.

Lemma index_last_snoc {A} (l : list A) (x : A) : index_last (l ++ [x]) = Ok x.
Proof. unfold index_last. rewrite rev_unit. reflexivity. Qed.

Lemma length_snoc_pos {A} (l : list A) (x : A) :
  (0 <? List.length (l ++ [x]))%nat = true.
Proof. apply Nat.ltb_lt. rewrite length_app. cbn [List.length]. lia. Qed.

Lemma disk_lookup_write_same (p : string) (c : list string) (d : list (string * list string)) :
  disk_lookup p (disk_write p c d) = Some c.
Proof. unfold disk_lookup, disk_write. cbn. rewrite String.eqb_refl. reflexivity. Qed.

Lemma disk_lookup_filter_other (p q : string) (d : list (string * list string)) :
  String.eqb q p = false ->
  disk_lookup p (filter (fun e => negb (String.eqb (fst e) q)) d) = disk_lookup p d.
Proof.
  intros Hne. unfold disk_lookup. induction d as [|[k v] d IH]; [reflexivity|].
  cbn. destruct (String.eqb k q) eqn:Ekq; cbn.
  - apply String.eqb_eq in Ekq; subst k. rewrite Hne. exact IH.
  - destruct (String.eqb k p); [reflexivity | exact IH].
Qed.

(** Writing a file leaves the files that exist in existence. *)
Lemma disk_write_exists (p q : string) (c : list string) (d : list (string * list string)) :
  disk_lookup p d <> None -> disk_lookup p (disk_write q c d) <> None.
Proof.
  intros H. destruct (String.eqb q p) eqn:E.
  - apply String.eqb_eq in E; subst q. rewrite disk_lookup_write_same. discriminate.
  - unfold disk_write. unfold disk_lookup at 1. cbn. rewrite E.
    fold (disk_lookup p (filter (fun e => negb (String.eqb (fst e) q)) d)).
    rewrite disk_lookup_filter_other by exact E. exact H.
Qed.

Lemma path_exists_true (p : string) (w : World) :
  exists_on_disk p w -> path_exists p w = true.
Proof.
  unfold exists_on_disk, path_exists.
  destruct (disk_lookup p (disk (proc w))); [reflexivity | congruence].
Qed.

Lemma write_history_file_spec (p : string) (w : World) :
  match write_history_file host p w with
  | (Ok _, w1) =>
      self w1 = self w /\ rl w1 = rl w /\ exists_on_disk p w1
      /\ (forall q, exists_on_disk q w -> exists_on_disk q w1)
  | (Raise _, w1) => w1 = w /\ write_history_error host p <> None
  end.
Proof.
  unfold write_history_file.
  destruct (write_history_error host p) as [[n m]|].
  - cbn. split; [reflexivity | discriminate].
  - cbn. repeat split.
    + unfold exists_on_disk. cbn. rewrite disk_lookup_write_same. discriminate.
    + intros q. unfold exists_on_disk. cbn. apply disk_write_exists.
Qed.

Lemma read_history_file_spec (p : string) (w : World) :
  match read_history_file host p w with
  | (Ok _, w1) =>
      self w1 = self w /\ rl_completer (rl w1) = rl_completer (rl w)
      /\ proc w1 = proc w
  | (Raise _, w1) =>
      w1 = w /\ (~ exists_on_disk p w \/ read_history_error host p <> None)
  end.
Proof.
  unfold read_history_file, exists_on_disk.
  destruct (disk_lookup p (disk (proc w))) as [c|].
  - destruct (read_history_error host p) as [[n m]|].
    + split; [reflexivity | right; discriminate].
    + cbn. auto.
  - split; [reflexivity | left; congruence].
Qed.

Lemma pop_last_snoc {A} (get : Cmd -> list A) (set : list A -> Cmd -> Cmd)
      (w : World) (l : list A) (x : A) :
  get (self w) = (l ++ [x])%list ->
  pop_last get set w = (Ok x, on_self (set l) w).
Proof.
  intros H. unfold pop_last. rewrite H, rev_unit, removelast_last. reflexivity.
Qed.

Lemma pop_completer_end_spec (w : World) hs cs c :
  history_stack (self w) = hs ->
  completer_stack (self w) = (cs ++ [c])%list ->
  match pop_completer_end host w with
  | (r, w1) =>
      (r = Ok tt ->
       history_stack (self w1) = hs
       /\ completer_stack (self w1) = cs
       /\ rl_completer (rl w1) = c
       /\ completekey (self w1) = completekey (self w)
       /\ proc w1 = proc w)
      /\ (reliable host -> top_exists hs w -> r = Ok tt)
  end.
Proof.
  intros Hhs Hcs. unfold pop_completer_end, bind, gets, lift, clear_history, modify.
  cbn [self on_rl]. rewrite Hhs.
  set (w' := on_rl (set_rl_history []) w).
  assert (Hcs' : completer_stack (self w') = (cs ++ [c])%list) by exact Hcs.
  destruct (snoc_cases hs) as [->|(hs' & t & ->)].
  - cbn [List.length Nat.ltb Nat.leb ret].
    rewrite (pop_last_snoc _ _ _ _ _ Hcs'). cbn. auto 10.
  - rewrite length_snoc_pos, index_last_snoc.
    destruct t as [f|]; [destruct (PyStr.nonempty f) eqn:Ef|].
    + pose proof (read_history_file_spec f w') as Hr.
      destruct (read_history_file host f w') as [[[]|e] w1].
      * destruct Hr as (Hself & Hc & Hproc).
        assert (Hcs1 : completer_stack (self w1) = (cs ++ [c])%list)
          by (rewrite Hself; exact Hcs).
        rewrite (pop_last_snoc _ _ _ _ _ Hcs1). cbn.
        rewrite Hself, Hproc. cbn. rewrite Hhs. auto 10.
      * destruct Hr as (-> & Hwhy). split; [discriminate|].
        intros Hrel Htop. exfalso. destruct Hwhy as [Hno | Herr].
        -- apply Hno. apply (Htop hs' f eq_refl Ef).
        -- apply Herr, Hrel.
    + cbn [ret]. rewrite (pop_last_snoc _ _ _ _ _ Hcs'). cbn. rewrite Hhs. auto 10.
    + cbn [ret]. rewrite (pop_last_snoc _ _ _ _ _ Hcs'). cbn. rewrite Hhs. auto 10.
Qed.

Lemma pop_completer_spec (w : World) hs top cs c :
  has_readline host = true ->
  history_stack (self w) = (hs ++ [top])%list ->
  completer_stack (self w) = (cs ++ [c])%list ->
  match pop_completer host w with
  | (r, w1) =>
      (r = Ok tt ->
       history_stack (self w1) = hs
       /\ completer_stack (self w1) = cs
       /\ rl_completer (rl w1) = c
       /\ completekey (self w1) = completekey (self w)
       /\ (forall q, exists_on_disk q w -> exists_on_disk q w1))
      /\ (reliable host -> top_exists hs w -> r = Ok tt)
  end.
Proof.
  intros Hrl Hhs Hcs. unfold pop_completer. rewrite Hrl.
  fold (pop_completer_end host). unfold bind, gets, lift.
  rewrite Hhs, index_last_snoc.
  set (w' := on_self (set_history_stack hs) w).
  assert (Hend : forall w1, self w1 = self w' ->
            (forall q, exists_on_disk q w -> exists_on_disk q w1) ->
            match pop_completer_end host w1 with
            | (r, w2) =>
                (r = Ok tt ->
                 history_stack (self w2) = hs
                 /\ completer_stack (self w2) = cs
                 /\ rl_completer (rl w2) = c
                 /\ completekey (self w2) = completekey (self w)
                 /\ (forall q, exists_on_disk q w -> exists_on_disk q w2))
                /\ (reliable host -> top_exists hs w -> r = Ok tt)
            end).
  { intros w1 Hself Hmono.
    pose proof (pop_completer_end_spec w1 hs cs c) as He.
    rewrite Hself in He. specialize (He eq_refl Hcs).
    destruct (pop_completer_end host w1) as [r w2]. destruct He as [Hok Hrun]. split.
    - intros Hr. destruct (Hok Hr) as (H1 & H2 & H3 & H4 & H5).
      repeat split; try assumption.
      intros q Hq. unfold exists_on_disk. rewrite H5. apply Hmono, Hq.
    - intros Hrel Htop. apply Hrun; [exact Hrel|].
      intros hs' f E Ef. apply Hmono, (Htop hs' f E Ef). }
  destruct top as [path|].
  - rewrite (pop_last_snoc history_stack set_history_stack w hs (Some path) Hhs).
    fold w'.
    pose proof (write_history_file_spec path w') as Hw.
    destruct (write_history_file host path w') as [[[]|e] w1].
    + destruct Hw as (Hself & _ & _ & Hmono). apply Hend; [exact Hself|].
      intros q Hq. apply Hmono. exact Hq.
    + destruct Hw as (_ & Herr). split; [discriminate|].
      intros Hrel _. exfalso. apply Herr, Hrel.
  - rewrite (pop_last_snoc history_stack set_history_stack w hs None Hhs).
    fold w'. cbn [ret]. apply Hend; [reflexivity | auto].
Qed.

Lemma path_exists_on_disk (p : string) (w : World) :
  path_exists p w = true -> exists_on_disk p w.
Proof.
  unfold exists_on_disk, path_exists.
  destruct (disk_lookup p (disk (proc w))); [discriminate | discriminate].
Qed.

Lemma push_completer_end_spec (w : World) (hf : option string) :
  match push_completer_end host hf w with
  | (r, w1) =>
      (r = Ok tt ->
       completer_stack (self w1) = completer_stack (self w)
       /\ history_stack (self w1) = (history_stack (self w) ++ [hf])%list
       /\ rl_completer (rl w1) = rl_completer (rl w)
       /\ completekey (self w1) = completekey (self w)
       /\ proc w1 = proc w)
      /\ (reliable host -> completekey (self w) <> None -> r = Ok tt)
  end.
Proof.
  unfold push_completer_end, clear_history.
  unfold bind at 1 2, modify at 1 2.
  set (w' := on_rl (set_rl_history [])
               (on_self (fun s => set_history_stack (history_stack s ++ [hf])%list s) w)).
  assert (Hkey : forall w1, self w1 = self w' ->
            rl_completer (rl w1) = rl_completer (rl w) -> proc w1 = proc w ->
            match (key <- gets (fun w => completekey (self w)) ;;
                   match key with
                   | Some k =>
                       modify (on_rl (fun r =>
                         set_rl_bindings (rl_bindings r ++ [String.append k ": complete"])%list r))
                   | None =>
                       raise (OtherError "TypeError"
                                "unsupported operand type(s) for +: 'NoneType' and 'str'")
                   end) w1 with
            | (r, w2) =>
                (r = Ok tt ->
                 completer_stack (self w2) = completer_stack (self w)
                 /\ history_stack (self w2) = (history_stack (self w) ++ [hf])%list
                 /\ rl_completer (rl w2) = rl_completer (rl w)
                 /\ completekey (self w2) = completekey (self w)
                 /\ proc w2 = proc w)
                /\ (reliable host -> completekey (self w) <> None -> r = Ok tt)
            end).
  { intros w1 Hself Hc Hp. unfold bind, gets. rewrite Hself.
    change (completekey (self w')) with (completekey (self w)).
    destruct (completekey (self w)) as [k|] eqn:Ek; cbn.
    - rewrite Hself. cbn. rewrite Ek. auto 10.
    - split; [discriminate | congruence]. }
  unfold bind at 1.
  destruct hf as [f|]; [|cbn [ret]; apply Hkey; reflexivity].
  unfold bind at 1, gets at 1.
  destruct (path_exists f w') eqn:Eex; [|cbn [ret]; apply Hkey; reflexivity].
  unfold try_except.
  pose proof (read_history_file_spec f w') as Hr.
  destruct (read_history_file host f w') as [[[]|e] w1].
  - destruct Hr as (Hself & Hc & Hp). apply Hkey; assumption.
  - destruct Hr as (-> & Hwhy).
    assert (Hno : reliable host -> False).
    { intros Hrel. destruct Hwhy as [Hno | Herr].
      - apply Hno, path_exists_on_disk, Eex.
      - apply Herr, Hrel. }
    destruct e as [m|m|m|n m|cls m];
      try (split; [discriminate | intros Hrel; destruct (Hno Hrel)]).
    destruct (PyStr.contains "darwin" (PyStr.lower (platform host))
              && String.eqb (PyStr.strip (str_exn (IOError n m)))
                            "[Errno 1] Operation not permitted").
    + cbn [ret]. apply Hkey; reflexivity.
    + cbn [raise]. split; [discriminate | intros Hrel; destruct (Hno Hrel)].
Qed.

Lemma push_completer_spec (w : World) (c : completer) (hf : option string) :
  has_readline host = true ->
  match push_completer host c hf w with
  | (r, w1) =>
      (r = Ok tt ->
       completer_stack (self w1) = (completer_stack (self w) ++ [rl_completer (rl w)])%list
       /\ history_stack (self w1) = (history_stack (self w) ++ [hf])%list
       /\ rl_completer (rl w1) = Some c
       /\ completekey (self w1) = completekey (self w)
       /\ (forall q, exists_on_disk q w -> exists_on_disk q w1)
       /\ top_exists (history_stack (self w)) w1)
      /\ (reliable host -> completekey (self w) <> None -> r = Ok tt)
  end.
Proof.
  intros Hrl. unfold push_completer. rewrite Hrl.
  fold (push_completer_end host hf).
  unfold set_completer. unfold bind, gets, modify, lift. cbv beta iota.
  set (wa := on_rl (fun r => set_rl_delims (PyStr.replace (rl_delims r) "/" EmptyString) r)
               (on_rl (set_rl_completer (Some c))
                  (on_self (fun s => set_completer_stack
                                       (completer_stack s ++ [rl_completer (rl w)])%list s) w))).
  change (history_stack (self wa)) with (history_stack (self w)).
  assert (Hend : forall w1, self w1 = self wa -> rl w1 = rl wa ->
            (forall q, exists_on_disk q w -> exists_on_disk q w1) ->
            top_exists (history_stack (self w)) w1 ->
            match push_completer_end host hf w1 with
            | (r, w2) =>
                (r = Ok tt ->
                 completer_stack (self w2)
                 = (completer_stack (self w) ++ [rl_completer (rl w)])%list
                 /\ history_stack (self w2) = (history_stack (self w) ++ [hf])%list
                 /\ rl_completer (rl w2) = Some c
                 /\ completekey (self w2) = completekey (self w)
                 /\ (forall q, exists_on_disk q w -> exists_on_disk q w2)
                 /\ top_exists (history_stack (self w)) w2)
                /\ (reliable host -> completekey (self w) <> None -> r = Ok tt)
            end).
  { intros w1 Hself Hrlw Hmono Htop.
    pose proof (push_completer_end_spec w1 hf) as He.
    rewrite Hself, Hrlw in He.
    destruct (push_completer_end host hf w1) as [r w2]. destruct He as [Hok Hrun].
    split; [|exact Hrun].
    intros Hr. destruct (Hok Hr) as (H1 & H2 & H3 & H4 & H5).
    repeat split; try assumption.
    - intros q Hq. unfold exists_on_disk. rewrite H5. apply Hmono, Hq.
    - intros hs' f E Ef. unfold exists_on_disk. rewrite H5. apply (Htop hs' f E Ef). }
  destruct (snoc_cases (history_stack (self w))) as [E|(hs' & t & E)].
  - replace (0 <? List.length (history_stack (self w)))%nat with false
      by (rewrite E; reflexivity).
    cbn [ret]. apply Hend; try reflexivity; [auto|].
    intros hs' f E'. rewrite E in E'. destruct hs'; discriminate.
  - replace (0 <? List.length (history_stack (self w)))%nat with true
      by (rewrite E; symmetry; apply length_snoc_pos).
    replace (index_last (history_stack (self w))) with (Ok t)
      by (rewrite E; symmetry; apply index_last_snoc).
    assert (Hskip : t = None \/ (exists f, t = Some f /\ PyStr.nonempty f = false) ->
              top_exists (history_stack (self w)) wa).
    { intros Ht hs'' f E' Ef. rewrite E in E'. apply app_inj_tail in E'.
      destruct E' as [_ ->]. destruct Ht as [Ht | (f' & Ht & Ef')]; [discriminate|].
      inversion Ht; subst. congruence. }
    destruct t as [f|]; [destruct (PyStr.nonempty f) eqn:Ef|].
    + pose proof (write_history_file_spec f wa) as Hw.
      destruct (write_history_file host f wa) as [[[]|e] w1].
      * destruct Hw as (Hself & Hrlw & Hex & Hmono).
        apply Hend; [exact Hself | exact Hrlw | exact Hmono |].
        intros hs'' f' E' _. rewrite E in E'. apply app_inj_tail in E'.
        destruct E' as [_ E']. inversion E'; subst. exact Hex.
      * destruct Hw as (_ & Herr). split; [discriminate|].
        intros Hrel _. exfalso. apply Herr, Hrel.
    + cbn [ret]. apply Hend; try reflexivity; [auto|].
      apply Hskip. right. exists f. auto.
    + cbn [ret]. apply Hend; try reflexivity; [auto|].
      apply Hskip. left. reflexivity.
Qed.

Lemma push_then_pop_cons (a : completer * option string)
      (rest : list (completer * option string)) (w : World) :
  push_then_pop host (a :: rest) w
  = (push_completer host (fst a) (snd a) ;;
     push_then_pop host rest ;;
     pop_completer host) w.
Proof.
  unfold push_then_pop. cbn [map List.length repeat].
  rewrite repeat_cons, app_assoc. cbn [app run_all].
  unfold bind.
  destruct (push_completer host (fst a) (snd a) w) as [[[]|e] w1]; [|reflexivity].
  rewrite run_all_app. unfold bind.
  destruct (run_all _ w1) as [[[]|e] w2]; [|reflexivity].
  cbn [run_all]. unfold bind, ret.
  destruct (pop_completer host w2) as [[[]|e] w3]; reflexivity.
Qed.

Lemma push_then_pop_balanced (args : list (completer * option string)) :
  has_readline host = true ->
  forall w,
    match push_then_pop host args w with
    | (r, w1) =>
        (r = Ok tt -> same_context w w1)
        /\ (reliable host -> completekey (self w) <> None -> r = Ok tt)
    end.
Proof.
  intros Hrl. induction args as [|[c hf] rest IH]; intros w.
  - cbn. unfold same_context. auto 10.
  - rewrite push_then_pop_cons. cbn [fst snd]. unfold bind.
    pose proof (push_completer_spec w c hf Hrl) as Hpush.
    destruct (push_completer host c hf w) as [[[]|e] w1].
    2:{ destruct Hpush as [_ Hrun]. split; [discriminate | exact Hrun]. }
    destruct Hpush as [Hpush _].
    destruct (Hpush eq_refl) as (Hcs1 & Hhs1 & Hc1 & Hk1 & Hmono1 & Htop1).
    specialize (IH w1).
    destruct (push_then_pop host rest w1) as [[[]|e] w2].
    2:{ destruct IH as [_ Hrun]. split; [discriminate|].
        intros Hrel Hkey. apply Hrun; [exact Hrel | rewrite Hk1; exact Hkey]. }
    destruct IH as [IH _].
    destruct (IH eq_refl) as (Hhs2 & Hcs2 & Hc2 & Hk2 & Hmono2).
    rewrite Hhs1 in Hhs2. rewrite Hcs1 in Hcs2.
    pose proof (pop_completer_spec w2 _ _ _ _ Hrl Hhs2 Hcs2) as Hpop.
    destruct (pop_completer host w2) as [r w3]. destruct Hpop as [Hok Hrun].
    split.
    + intros Hr. destruct (Hok Hr) as (Hhs3 & Hcs3 & Hc3 & Hk3 & Hmono3).
      unfold same_context. repeat split; try assumption.
      * rewrite Hk3, Hk2. exact Hk1.
      * intros q Hq. apply Hmono3, Hmono2, Hmono1, Hq.
    + intros Hrel _. apply Hrun; [exact Hrel|].
      intros hs' f E Ef. apply Hmono2, (Htop1 hs' f E Ef).
Qed.

Lemma run_all_noop (ms : list (M unit)) (w : World) :
  Forall (fun m => m = ret tt) ms -> run_all ms w = (Ok tt, w).
Proof.
  induction 1 as [|m ms Hm _ IH]; [reflexivity|].
  cbn [run_all]. rewrite Hm. exact IH.
Qed.

(** Without [readline] the calls do nothing. *)
Lemma push_then_pop_without_readline (args : list (completer * option string)) (w : World) :
  has_readline host = false -> push_then_pop host args w = (Ok tt, w).
Proof.
  intros Hrl. unfold push_then_pop. apply run_all_noop, Forall_app. split.
  - apply Forall_map, Forall_forall. intros a _.
    unfold push_completer. rewrite Hrl. reflexivity.
  - apply Forall_forall. intros m Hm. apply repeat_spec in Hm. subst m.
    unfold pop_completer. rewrite Hrl. reflexivity.
Qed.

End CompleterStack.

(** C8: after [N] calls of [push_completer], with any completers and history
    files, followed by [N] calls of [pop_completer], all of which returned,
    the completer installed in the line editor is the one that was installed
    before the first push; and the calls do all return when no history file
    operation is refused and the completion key is set. *)
Theorem push_pop_symmetry (host : Host) (args : list (completer * option string)) (w : World) :
  (fst (push_then_pop host args w) = Ok tt ->
   rl_completer (rl (snd (push_then_pop host args w))) = rl_completer (rl w))
  /\ (reliable host -> completekey (self w) <> None ->
      fst (push_then_pop host args w) = Ok tt).
Proof.
  destruct (has_readline host) eqn:Hrl.
  - pose proof (push_then_pop_balanced host args Hrl w) as H.
    destruct (push_then_pop host args w) as [r w1]. cbn [fst snd].
    destruct H as [Hok Hrun]. split; [|exact Hrun].
    intros Hr. apply (Hok Hr).
  - rewrite (push_then_pop_without_readline host args w Hrl). cbn. auto.
Qed.

Lemma push_pop_symmetry_witness :
  fst (push_then_pop example_host example_pushes example_world) = Ok tt
  /\ rl_completer (rl (snd (push_then_pop example_host example_pushes example_world)))
     = rl_completer (rl example_world).
Proof.
  destruct (push_pop_symmetry example_host example_pushes example_world) as [Hsame Hruns].
  assert (Hok : fst (push_then_pop example_host example_pushes example_world) = Ok tt).
  { apply Hruns; [intros path; split; reflexivity | discriminate]. }
  split; [exact Hok | exact (Hsame Hok)].
Defined.

(* ===================================================================== *)
(** ** Redirection *)
(* ===================================================================== *)

Section Redirection.

Variable host : Host.

(** All that [__redirect_output] can do, by the split of the line at its
    last [>].  The text after the last [>] has no [>] in it, so the test
    [destination[0] == ">"] of [__build_tee] never holds and the mode is
    always ['w']. *)
Lemma redirect_output_cases (line : string) (w : World) :
  redirect_output host line w =
  match PyStr.rsplit_last ">" line with
  | None =>
      (Raise (ValueError "not enough values to unpack (expected 2, got 1)"), w)
  | Some (body, EmptyString) =>
      (Ok EmptyString, wrote (stderr (self w)) no_target_message w)
  | Some (body, destination) =>
      let name := PyStr.strip destination in
      match open_error host name ModeW with
      | Some (_, strerror) => (Ok EmptyString, refused name ModeW strerror w)
      | None => (Ok body, installed name ModeW w)
      end
  end.
Proof.
  unfold redirect_output, PyStr.rsplit1.
  destruct (PyStr.rsplit_last ">" line) as [[body dest]|] eqn:E; [|reflexivity].
  destruct dest as [|c rest]; [reflexivity|].
  apply rsplit_last_spec in E. destruct E as [_ E].
  apply rsplit_last_none_head in E.
  cbn [String.length Nat.ltb Nat.leb].
  unfold build_tee, new_tee, try_except, bind, gets, modify, ret, raise.
  rewrite E. cbv beta iota. cbn [self on_self stdout set_output_redirected].
  destruct (open_error host (PyStr.strip (String c rest)) ModeW) as [[n m]|];
    reflexivity.
Qed.

(** Substitution touches nothing but the record of what was written. *)
Lemma do_last_command_substitutions_frame (line : string) (w : World) :
  self (snd (do_last_command_substitutions line w)) = self w
  /\ rl (snd (do_last_command_substitutions line w)) = rl w.
Proof.
  unfold do_last_command_substitutions, bind, gets, lift.
  destruct (negb (String.eqb (lastcmd (self w)) EmptyString)); [|split; reflexivity].
  destruct (Shlex.split (lastcmd (self w))) as [argv|e]; [|split; reflexivity].
  destruct (index_last argv); [|split; reflexivity].
  destruct (index argv 1); split; reflexivity.
Qed.

Lemma do_substitutions_frame (line : string) (w : World) :
  self (snd (do_substitutions line w)) = self w
  /\ rl (snd (do_substitutions line w)) = rl w.
Proof.
  unfold do_substitutions.
  destruct (negb (PyStr.nonempty line)); [split; reflexivity|].
  unfold bind, gets.
  destruct (has_bang (substitute_variables (variables (self w)) line)).
  - apply do_last_command_substitutions_frame.
  - split; reflexivity.
Qed.

(** [precmd] for a line that, once substituted, has a redirection token. *)
Lemma precmd_redirects (line sline : string) (toks : list string) (w w1 : World) :
  do_substitutions line w = (Ok sline, w1) ->
  Shlex.split sline = Ok toks ->
  in_list ">" toks || in_list ">>" toks = true ->
  precmd host line w = redirect_output host sline w1.
Proof.
  intros Hs Ht Hin. unfold precmd, bind, lift. rewrite Hs, Ht, Hin. reflexivity.
Qed.

(** After [precmd], either the output is the one from before, or a tee was
    installed and the stream from before is saved. *)
Lemma precmd_output (line : string) (w : World) :
  let w1 := snd (precmd host line w) in
  stdout (self w1) = stdout (self w)
  \/ output_redirected (self w1) = Some (stdout (self w)).
Proof.
  cbv zeta. unfold precmd, bind, lift.
  pose proof (do_substitutions_frame line w) as [Hself _].
  destruct (do_substitutions line w) as [[sline|e] wa]; cbn [snd] in *.
  2:{ left. rewrite Hself. reflexivity. }
  destruct (Shlex.split sline) as [toks|e].
  2:{ left. cbn. rewrite Hself. reflexivity. }
  destruct (in_list ">" toks || in_list ">>" toks).
  2:{ left. cbn. rewrite Hself. reflexivity. }
  rewrite redirect_output_cases.
  destruct (PyStr.rsplit_last ">" sline) as [[body [|c rest]]|].
  - left. cbn. rewrite Hself. reflexivity.
  - cbv zeta.
    destruct (open_error host (PyStr.strip (String c rest)) ModeW) as [[n m]|].
    + left. cbn. rewrite Hself. reflexivity.
    + right. cbn. rewrite Hself. reflexivity.
  - left. cbn. rewrite Hself. reflexivity.
Qed.

End Redirection.

(* ===================================================================== *)
(** ** One command: [precmd], [onecmd], [postcmd] *)
(* ===================================================================== *)

Lemma find_from_no_dollar (n s : string) (i : Z) :
  has_char "$" s = false -> PyStr.find_from ("$" ++ n) s i = (-1)%Z.
Proof.
  revert i; induction s as [|c s IH]; intros i H; [reflexivity|].
  cbn [has_char] in H. apply orb_false_iff in H. destruct H as [Hc Hs].
  cbn [PyStr.find_from]. cbn [append prefix].
  destruct (ascii_dec "$" c) as [<-|_]; [discriminate|].
  apply IH, Hs.
Qed.

(** A line without [$] is not changed by the variables, whatever they are. *)
Lemma substitute_variables_no_dollar (vars : list (string * string)) (line : string) :
  has_char "$" line = false -> substitute_variables vars line = line.
Proof.
  intros H. induction vars as [|[n v] vars IH]; [reflexivity|].
  change (substitute_variables ((n, v) :: vars) line)
    with (substitute_variables vars (PyStr.replace line ("$" ++ n) v)).
  rewrite replace_absent;
    [exact IH | apply dollar_name_nonempty | apply find_from_no_dollar, H].
Qed.

Lemma do_substitutions_plain (line : string) (w : World) :
  PyStr.nonempty line = true -> has_char "$" line = false -> has_bang line = false ->
  do_substitutions line w = (Ok line, w).
Proof.
  intros Hne Hd Hb. unfold do_substitutions, bind, gets. rewrite Hne. cbn [negb].
  rewrite substitute_variables_no_dollar, Hb by exact Hd. reflexivity.
Qed.

Section Command.

Variable host : Host.
Variable getattr_do : string -> option (string -> M bool).

(** An empty line is not dispatched: [onecmd] calls [emptyline], which
    does nothing, whatever handlers there are. *)
Lemma onecmd_empty (w : World) : onecmd getattr_do EmptyString w = (Ok false, w).
Proof. reflexivity. Qed.

(** The attribute lookup of the [except ValueError] clause raises before
    anything is written. *)
Lemma on_value_error_raises (e : exn) (w : World) :
  on_value_error e w
  = (Raise (AttributeError
              ("'" ++ class_name e ++ "' object has no attribute 'message'")), w).
Proof. reflexivity. Qed.

End Command.

(** C1 at the input [foo bar >> out.txt], in any session and on any host:
    the line is split at its last [>], the text after it is [ out.txt],
    which does not start with [>], so [out.txt] is opened in mode ['w'], as
    it is for [foo bar > out.txt]; the line that is dispatched is
    [foo bar >], and [foo] gets the argument [bar >]. *)
Theorem append_redirection_opens_for_overwrite
        (host : Host) (foo : string -> M bool) (w : World) :
  let getattr_do := fun name => if String.eqb name "foo" then Some foo else None in
  precmd host "foo bar >> out.txt" w
  = match open_error host "out.txt" ModeW with
    | Some (_, strerror) => (Ok EmptyString, refused "out.txt" ModeW strerror w)
    | None => (Ok "foo bar >", installed "out.txt" ModeW w)
    end
  /\ precmd host "foo bar > out.txt" w
     = match open_error host "out.txt" ModeW with
       | Some (_, strerror) => (Ok EmptyString, refused "out.txt" ModeW strerror w)
       | None => (Ok "foo bar ", installed "out.txt" ModeW w)
       end
  /\ onecmd getattr_do "foo bar >" (installed "out.txt" ModeW w)
     = foo "bar >" (on_self (set_lastcmd "foo bar >") (installed "out.txt" ModeW w)).
Proof.
  cbv zeta. repeat split.
  - rewrite (precmd_redirects host _ "foo bar >> out.txt" ["foo"; "bar"; ">>"; "out.txt"] w w)
      by (reflexivity || apply do_substitutions_plain; reflexivity).
    rewrite redirect_output_cases. reflexivity.
  - rewrite (precmd_redirects host _ "foo bar > out.txt" ["foo"; "bar"; ">"; "out.txt"] w w)
      by (reflexivity || apply do_substitutions_plain; reflexivity).
    rewrite redirect_output_cases. reflexivity.
Qed.

(** Append mode is never chosen: whatever the line, every [open] that
    [__redirect_output] makes is in mode ['w']. *)
Lemma redirect_output_never_appends (host : Host) (line : string) (w : World) :
  let w1 := snd (redirect_output host line w) in
  opened (proc w1) = opened (proc w)
  \/ exists name, opened (proc w1) = (opened (proc w) ++ [(name, ModeW)])%list.
Proof.
  cbv zeta. rewrite redirect_output_cases.
  destruct (PyStr.rsplit_last ">" line) as [[body [|c rest]]|]; [left; reflexivity | | left; reflexivity].
  right. exists (PyStr.strip (String c rest)). cbv zeta.
  destruct (open_error host (PyStr.strip (String c rest)) ModeW) as [[n m]|]; reflexivity.
Qed.

(** C6, as stated, fails: in [foo bar > ] the destination is a single space,
    which is a blank name, yet the check [len(destination) > 0] passes and
    [No redirection target specified] is not written.  The name given to
    the tee is empty: where the system refuses to open it, that refusal is
    what is reported; where it does not, [foo bar ] is dispatched. *)
Lemma blank_target_is_not_reported :
  Shlex.split "foo bar > " = Ok ["foo"; "bar"; ">"]
  /\ PyStr.strip " " = EmptyString
  /\ precmd strict_host "foo bar > " example_world
     = (Ok EmptyString,
        refused EmptyString ModeW "No such file or directory" example_world)
  /\ written_to SysStderr (snd (precmd strict_host "foo bar > " example_world))
     = [refusal_message "No such file or directory"]
  /\ precmd example_host "foo bar > " example_world
     = (Ok "foo bar ", installed EmptyString ModeW example_world)
  /\ written_to SysStderr (snd (precmd example_host "foo bar > " example_world)) = [].
Proof. repeat split; reflexivity. Qed.

(** C6, amended: if the substituted line has a redirection token and
    nothing at all follows its last [>] (as in [foo bar >]), the shell
    writes [No redirection target specified.] to the error stream and
    [precmd] returns the empty line, for which [onecmd] calls no handler:
    the command is not dispatched. *)
Theorem missing_target_is_reported
        (host : Host) (getattr_do : string -> option (string -> M bool))
        (line body : string) (toks : list string) (w w1 : World) :
  do_substitutions line w = (Ok (body ++ ">"), w1) ->
  Shlex.split (body ++ ">") = Ok toks ->
  in_list ">" toks || in_list ">>" toks = true ->
  let w2 := wrote (stderr (self w1)) no_target_message w1 in
  precmd host line w = (Ok EmptyString, w2)
  /\ onecmd getattr_do EmptyString w2 = (Ok false, w2)
  /\ run_command host getattr_do line w = postcmd false EmptyString w2.
Proof.
  intros Hs Ht Hin w2.
  assert (Hpre : precmd host line w = (Ok EmptyString, w2)).
  { rewrite (precmd_redirects host _ _ _ _ _ Hs Ht Hin), redirect_output_cases.
    rewrite rsplit_last_at_end. reflexivity. }
  repeat split; [exact Hpre|].
  unfold run_command, bind. rewrite Hpre, onecmd_empty. reflexivity.
Qed.

Lemma missing_target_is_reported_witness :
  let w2 := wrote SysStderr no_target_message example_world in
  precmd example_host "foo bar >" example_world = (Ok EmptyString, w2)
  /\ onecmd example_commands EmptyString w2 = (Ok false, w2)
  /\ run_command example_host example_commands "foo bar >" example_world
     = postcmd false EmptyString w2.
Proof.
  exact (missing_target_is_reported example_host example_commands
           "foo bar >" "foo bar " ["foo"; "bar"; ">"] example_world example_world
           eq_refl eq_refl eq_refl).
Defined.

(** C10: if the substituted line has a redirection token and a destination,
    and opening the destination raises [IOError], then the error is written
    to the error stream, [precmd] returns the empty line, no handler is
    called, and when [postcmd] has run the session's output is the stream it
    was before and no redirection is recorded. *)
Theorem refused_target_leaves_output
        (host : Host) (getattr_do : string -> option (string -> M bool))
        (line sline body destination strerror : string) (errno : nat)
        (toks : list string) (w w1 : World) :
  do_substitutions line w = (Ok sline, w1) ->
  Shlex.split sline = Ok toks ->
  in_list ">" toks || in_list ">>" toks = true ->
  PyStr.rsplit_last ">" sline = Some (body, destination) ->
  destination <> EmptyString ->
  open_error host (PyStr.strip destination) ModeW = Some (errno, strerror) ->
  let w2 := refused (PyStr.strip destination) ModeW strerror w1 in
  let w3 := on_self (set_output_redirected None) (on_self (set_stdout (stdout (self w))) w2) in
  precmd host line w = (Ok EmptyString, w2)
  /\ written (proc w2)
     = (written (proc w1) ++ [(stderr (self w), refusal_message strerror)])%list
  /\ onecmd getattr_do EmptyString w2 = (Ok false, w2)
  /\ run_command host getattr_do line w = (Ok false, w3)
  /\ stdout (self w3) = stdout (self w)
  /\ stdout (self w2) = stdout (self w).
Proof.
  intros Hs Ht Hin Hsplit Hne Hopen w2 w3.
  pose proof (do_substitutions_frame line w) as [Hself _].
  rewrite Hs in Hself. cbn [snd] in Hself.
  assert (Hpre : precmd host line w = (Ok EmptyString, w2)).
  { rewrite (precmd_redirects host _ _ _ _ _ Hs Ht Hin), redirect_output_cases, Hsplit.
    destruct destination as [|c rest]; [congruence|].
    cbv zeta. rewrite Hopen. reflexivity. }
  repeat split.
  - exact Hpre.
  - unfold w2, refused, wrote. cbn. rewrite Hself. reflexivity.
  - unfold run_command, bind. rewrite Hpre, onecmd_empty.
    unfold postcmd, bind, gets, modify, ret, w3. cbn. rewrite Hself. reflexivity.
  - unfold w2. cbn. rewrite Hself. reflexivity.
Qed.

Lemma refused_target_leaves_output_witness :
  let w2 := refused "/root/out.txt" ModeW "Permission denied" example_world in
  let w3 := on_self (set_output_redirected None) (on_self (set_stdout SysStdout) w2) in
  precmd denying_host "foo bar > /root/out.txt" example_world = (Ok EmptyString, w2)
  /\ written (proc w2) = [(SysStderr, refusal_message "Permission denied")]
  /\ onecmd example_commands EmptyString w2 = (Ok false, w2)
  /\ run_command denying_host example_commands "foo bar > /root/out.txt" example_world
     = (Ok false, w3)
  /\ stdout (self w3) = SysStdout
  /\ stdout (self w2) = SysStdout.
Proof.
  refine (refused_target_leaves_output denying_host example_commands
            "foo bar > /root/out.txt" "foo bar > /root/out.txt" "foo bar " " /root/out.txt"
            "Permission denied" 13 ["foo"; "bar"; ">"; "/root/out.txt"]
            example_world example_world eq_refl eq_refl eq_refl eq_refl _ eq_refl).
  discriminate.
Defined.

(** C2, as stated, fails: [boom > out.txt] installs a tee and its handler
    raises; [postcmd] is not run, and when [cmdloop] has returned the
    session's output is still the tee, not the stream from before. *)
Lemma handler_error_skips_restore :
  let w := on_self (set_cmdqueue ["boom > out.txt"]) example_world in
  let w' := snd (cmdloop example_host example_commands 1 w) in
  stdout (self w) = SysStdout
  /\ fst (run_command example_host example_commands "boom > out.txt" example_world)
     = Raise (OtherError "RuntimeError" "boom")
  /\ fst (cmdloop example_host example_commands 1 w) = Ok (Some tt)
  /\ stdout (self w') = Tee 0 SysStdout "out.txt" ModeW
  /\ output_redirected (self w') = Some SysStdout.
Proof. repeat split; reflexivity. Qed.

(** C2, amended: after a redirection has been installed for a command,
    [postcmd] runs when the dispatch of the command returns, and then the
    session's output is the very stream that was current before the
    redirection, and no redirection is recorded any more; when the dispatch
    raises, be it the handler or the tokenizer, [postcmd] is not run. *)
Theorem restore_after_normal_return
        (host : Host) (getattr_do : string -> option (string -> M bool))
        (line line' : string) (w w1 : World) :
  precmd host line w = (Ok line', w1) ->
  stdout (self w1) <> stdout (self w) ->
  (forall stop w2,
      onecmd getattr_do line' w1 = (Ok stop, w2) ->
      output_redirected (self w2) = output_redirected (self w1) ->
      run_command host getattr_do line w
      = (Ok stop, on_self (set_output_redirected None)
                    (on_self (set_stdout (stdout (self w))) w2)))
  /\ (forall e w2,
         onecmd getattr_do line' w1 = (Raise e, w2) ->
         run_command host getattr_do line w = (Raise e, w2)).
Proof.
  intros Hpre Hchanged.
  assert (Hsaved : output_redirected (self w1) = Some (stdout (self w))).
  { pose proof (precmd_output host line w) as H. cbv zeta in H.
    rewrite Hpre in H. cbn [snd] in H. destruct H as [H|H]; [contradiction | exact H]. }
  split.
  - intros stop w2 Hcmd Hkept. unfold run_command, bind. rewrite Hpre, Hcmd.
    unfold postcmd, bind, gets, modify, ret. rewrite Hkept, Hsaved. reflexivity.
  - intros e w2 Hcmd. unfold run_command, bind. rewrite Hpre, Hcmd. reflexivity.
Qed.

Lemma restore_after_normal_return_witness :
  let tee := Tee 0 SysStdout "out.txt" ModeW in
  let w' := snd (run_command example_host example_commands "foo bar > out.txt" example_world) in
  fst (run_command example_host example_commands "foo bar > out.txt" example_world) = Ok false
  /\ written (proc w') = [(tee, "bar")]
  /\ stdout (self w') = SysStdout
  /\ output_redirected (self w') = None.
Proof.
  pose proof (restore_after_normal_return example_host example_commands
                "foo bar > out.txt" "foo bar "
                example_world (installed "out.txt" ModeW example_world) eq_refl) as H.
  destruct H as [Hok _]; [discriminate|].
  cbv zeta.
  rewrite (Hok false
             (wrote (Tee 0 SysStdout "out.txt" ModeW) "bar"
                (on_self (set_lastcmd "foo bar")
                   (installed "out.txt" ModeW example_world))) eq_refl eq_refl).
  repeat split; reflexivity.
Defined.

(** The same with a parse error during dispatch: [bar > 'a > b'] is split
    at its last [>], the tee is installed, and the tokenizer fails on the
    line that is left when [default] splits it. *)
Lemma parse_error_in_dispatch_skips_restore :
  let w := on_self (set_cmdqueue ["bar > 'a > b'"]) example_world in
  let w' := snd (cmdloop example_host example_commands 1 w) in
  fst (run_command example_host example_commands "bar > 'a > b'" example_world)
  = Raise (ValueError "No closing quotation")
  /\ stdout (self w') = Tee 0 SysStdout "b'" ModeW.
Proof. split; reflexivity. Qed.

(* ===================================================================== *)
(** ** The command loop *)
(* ===================================================================== *)

(** A [ValueError] out of [precmd] is caught by the inner [except] clause,
    whose test raises in its turn: the [while] loop is left with an
    [AttributeError], whatever the fuel. *)
Lemma parse_error_leaves_the_loop
      (host : Host) (getattr_do : string -> option (string -> M bool))
      (fuel : nat) (line msg : string) (rest : list string) (w w1 : World) :
  cmdqueue (self w) = line :: rest ->
  precmd host line (on_self (set_cmdqueue rest) w) = (Raise (ValueError msg), w1) ->
  while_not_stop host getattr_do (S fuel) w = (Raise no_message_attribute, w1).
Proof.
  intros Hq Hpre. cbn [while_not_stop].
  unfold bind at 1. unfold loop_turn, read_line, bind at 1 2, gets at 1.
  rewrite Hq. unfold bind at 1, modify at 1, ret at 1.
  unfold try_except, run_command, bind at 1. rewrite Hpre. reflexivity.
Qed.

(** C4 at the input [echo 'oops], with [set A=1] queued behind it: the
    tokenizer raises [ValueError]; the message about quotation marks is not
    written; [cmdloop] reports the [AttributeError] and returns, with the
    next line still in the queue. *)
Theorem unbalanced_quote_ends_the_loop (fuel : nat) :
  let w := on_self (set_cmdqueue ["echo 'oops"; "set A=1"]) example_world in
  let w' := snd (cmdloop example_host no_commands (S fuel) w) in
  Shlex.split "echo 'oops" = Raise (ValueError "No closing quotation")
  /\ fst (cmdloop example_host no_commands (S fuel) w) = Ok (Some tt)
  /\ cmdqueue (self w') = ["set A=1"]
  /\ written (proc w')
     = [(SysStdout, "Loop exception" ++ PyStr.nl);
        (SysStderr, "Exception occured: 'ValueError' object has no attribute 'message'"
                      ++ PyStr.nl)].
Proof. repeat split; reflexivity. Qed.

(* ===================================================================== *)
(** ** Further properties: the tokenizer on plain words *)
(* ===================================================================== *)

Lemma append_assoc (a b c : string) : (a ++ b) ++ c = a ++ (b ++ c).
Proof. induction a as [|x a IH]; simpl; [reflexivity | rewrite IH; reflexivity]. Qed.

Lemma plain_char_cases (c : ascii) :
  plain_char c = true ->
  PyStr.char_in c Shlex.whitespace = false
  /\ PyStr.char_in c Shlex.quotes = false
  /\ PyStr.char_in c Shlex.escape = false.
Proof.
  unfold plain_char. intros H.
  apply andb_true_iff in H. destruct H as [H H3].
  apply andb_true_iff in H. destruct H as [H1 H2].
  apply negb_true_iff in H1, H2, H3. auto.
Qed.

(** Inside a word, plain characters join the token. *)
Lemma read_tokens_word (w rest : string) (es : Shlex.lexstate) (q : bool) (tok : string) :
  all_chars plain_char w = true ->
  Shlex.read_tokens (w ++ rest) Shlex.Word es q tok
  = Shlex.read_tokens rest Shlex.Word es q (tok ++ w).
Proof.
  revert tok; induction w as [|c w IH]; intros tok H.
  - cbn [append]. rewrite app_empty_r. reflexivity.
  - cbn [all_chars] in H. apply andb_true_iff in H. destruct H as [Hc Hw].
    destruct (plain_char_cases c Hc) as (H1 & H2 & H3).
    cbn [append Shlex.read_tokens]. rewrite H1, H2, H3.
    rewrite (IH _ Hw). unfold PyStr.snoc. rewrite append_assoc. reflexivity.
Qed.

(** A plain word at the start of a token. *)
Lemma read_tokens_start (w rest : string) :
  plain_word w = true ->
  Shlex.read_tokens (w ++ rest) Shlex.Space Shlex.Space false EmptyString
  = Shlex.read_tokens rest Shlex.Word Shlex.Space false w.
Proof.
  unfold plain_word. intros H. apply andb_true_iff in H. destruct H as [Hne H].
  destruct w as [|c w]; [discriminate|].
  cbn [all_chars] in H. apply andb_true_iff in H. destruct H as [Hc Hw].
  destruct (plain_char_cases c Hc) as (H1 & H2 & H3).
  cbn [append Shlex.read_tokens]. rewrite H1, H2, H3.
  apply (read_tokens_word w rest Shlex.Space false (String c EmptyString) Hw).
Qed.

(** Plain words joined by single spaces are split into these words. *)
Lemma split_join_words (ws : list string) :
  forallb plain_word ws = true ->
  Shlex.split (PyStr.join " " ws) = Ok ws.
Proof.
  unfold Shlex.split, PyStr.join.
  induction ws as [|w ws IH]; intros H; [reflexivity|].
  cbn [forallb] in H. apply andb_true_iff in H. destruct H as [Hw Hws].
  assert (Hne : PyStr.nonempty w = true).
  { unfold plain_word in Hw. apply andb_true_iff in Hw. apply Hw. }
  destruct ws as [|w' ws].
  - cbn [String.concat]. rewrite <- (app_empty_r w) at 1.
    rewrite read_tokens_start by exact Hw. cbn. rewrite Hne. reflexivity.
  - change (String.concat " " (w :: w' :: ws))
      with (w ++ " " ++ String.concat " " (w' :: ws)).
    rewrite read_tokens_start by exact Hw.
    change (" " ++ String.concat " " (w' :: ws))
      with (String " " (String.concat " " (w' :: ws))).
    cbn [Shlex.read_tokens]. change (PyStr.char_in " " Shlex.whitespace) with true.
    cbv iota. rewrite Hne. cbn [orb]. rewrite (IH Hws). reflexivity.
Qed.

(** White space alone gives no token. *)
Lemma split_blank (s : string) :
  all_chars shell_space s = true -> Shlex.split s = Ok [].
Proof.
  unfold Shlex.split. induction s as [|c s IH]; intros H; [reflexivity|].
  cbn [all_chars] in H. apply andb_true_iff in H. destruct H as [Hc Hs].
  cbn [Shlex.read_tokens]. unfold shell_space in Hc. rewrite Hc. cbn. apply IH, Hs.
Qed.

Lemma shell_space_is_space (c : ascii) : shell_space c = true -> PyStr.is_space c = true.
Proof.
  unfold shell_space, Shlex.whitespace, PyStr.char_in. cbn [existsb].
  rewrite !orb_true_iff. intros [H|[H|[H|[H|H]]]]; try discriminate;
    apply Ascii.eqb_eq in H; subst c; reflexivity.
Qed.

Lemma strip_blank (s : string) :
  all_chars shell_space s = true -> PyStr.strip s = EmptyString.
Proof.
  unfold PyStr.strip. induction s as [|c s IH]; intros H; [reflexivity|].
  cbn [all_chars] in H. apply andb_true_iff in H. destruct H as [Hc Hs].
  cbn [PyStr.lstrip]. rewrite (shell_space_is_space c Hc). apply IH, Hs.
Qed.

Lemma find_from_no_char (c : ascii) (n s : string) (i : Z) :
  has_char c s = false -> PyStr.find_from (String c n) s i = (-1)%Z.
Proof.
  revert i; induction s as [|x s IH]; intros i H; [reflexivity|].
  cbn [has_char] in H. apply orb_false_iff in H. destruct H as [Hx Hs].
  cbn [PyStr.find_from prefix].
  destruct (ascii_dec c x) as [->|_]; [rewrite Ascii.eqb_refl in Hx; discriminate|].
  apply IH, Hs.
Qed.

(** A line without [!] has no history token. *)
Lemma has_bang_no_bang (s : string) : has_char "!" s = false -> has_bang s = false.
Proof.
  intros H. unfold has_bang, PyStr.find.
  rewrite !(find_from_no_char "!") by exact H. reflexivity.
Qed.

Lemma blank_has_no (c : ascii) (s : string) :
  shell_space c = false -> all_chars shell_space s = true -> has_char c s = false.
Proof.
  intros Hc. induction s as [|x s IH]; intros H; [reflexivity|].
  cbn [all_chars] in H. apply andb_true_iff in H. destruct H as [Hx Hs].
  cbn [has_char]. rewrite (IH Hs), orb_false_r.
  destruct (Ascii.eqb x c) eqn:E; [|reflexivity].
  apply Ascii.eqb_eq in E. subst x. congruence.
Qed.

(* ===================================================================== *)
(** ** Further properties: lines that change nothing *)
(* ===================================================================== *)

Lemma precmd_unchanged (host : Host) (line : string) (toks : list string) (w : World) :
  PyStr.nonempty line = true ->
  has_char "$" line = false ->
  has_char "!" line = false ->
  Shlex.split line = Ok toks ->
  in_list ">" toks || in_list ">>" toks = false ->
  precmd host line w = (Ok line, w).
Proof.
  intros Hne Hd Hb Ht Hin. unfold precmd, bind, lift.
  rewrite (do_substitutions_plain line w Hne Hd (has_bang_no_bang line Hb)).
  rewrite Ht, Hin. reflexivity.
Qed.

(** X1: a line without [$], without [!] and without a [>] or [>>] token
    goes through [precmd] as it is, whatever the variables and the last
    command are, and the state is not touched. *)
Theorem precmd_plain_line (host : Host) (line : string) (toks : list string) (w : World) :
  PyStr.nonempty line = true ->
  has_char "$" line = false ->
  has_char "!" line = false ->
  Shlex.split line = Ok toks ->
  in_list ">" toks || in_list ">>" toks = false ->
  precmd host line w = (Ok line, w).
Proof.
  intros Hne Hd Hb Ht Hin. unfold precmd, bind, lift.
  rewrite (do_substitutions_plain line w Hne Hd (has_bang_no_bang line Hb)).
  rewrite Ht, Hin. reflexivity.
Qed.

Lemma precmd_plain_line_witness :
  precmd example_host "run app.package.list -f 'a > b'"
         (on_self (set_variables [("P", "com.example.app")]) example_world)
  = (Ok "run app.package.list -f 'a > b'",
     on_self (set_variables [("P", "com.example.app")]) example_world).
Proof.
  exact (precmd_plain_line example_host "run app.package.list -f 'a > b'"
           ["run"; "app.package.list"; "-f"; "a > b"]
           (on_self (set_variables [("P", "com.example.app")]) example_world)
           eq_refl eq_refl eq_refl eq_refl eq_refl).
Defined.

(** X2: a line of white space only (or an empty line) is not dispatched:
    with no redirection pending, the whole cycle of [precmd], [onecmd] and
    [postcmd] returns without stopping and leaves the state, the last
    command included, as it was, whatever the handlers are. *)
Theorem blank_line_does_nothing
        (host : Host) (getattr_do : string -> option (string -> M bool))
        (line : string) (w : World) :
  all_chars shell_space line = true ->
  output_redirected (self w) = None ->
  run_command host getattr_do line w = (Ok false, w).
Proof.
  intros Hblank Hnone.
  assert (Hpre : precmd host line w = (Ok line, w)).
  { destruct line as [|c line]; [reflexivity|].
    apply (precmd_unchanged host _ []); try reflexivity.
    - apply blank_has_no; [reflexivity | exact Hblank].
    - apply blank_has_no; [reflexivity | exact Hblank].
    - apply split_blank, Hblank. }
  unfold run_command, bind. rewrite Hpre.
  unfold onecmd, parseline. rewrite (strip_blank line Hblank). cbn.
  unfold postcmd, bind, gets. rewrite Hnone. reflexivity.
Qed.

Lemma blank_line_does_nothing_witness :
  run_command example_host example_commands "   " example_world = (Ok false, example_world).
Proof.
  exact (blank_line_does_nothing example_host example_commands "   " example_world
           eq_refl eq_refl).
Defined.

(** X3: [postcmd] returns the stop flag it is given and leaves no
    redirection recorded: if one was recorded, the session's output is the
    saved stream afterwards; if none was, nothing changes; and a second
    [postcmd] changes nothing more. *)
Theorem postcmd_restores_once (stop : bool) (line : string) (w : World) :
  let w' := snd (postcmd stop line w) in
  fst (postcmd stop line w) = Ok stop
  /\ output_redirected (self w') = None
  /\ (forall saved, output_redirected (self w) = Some saved -> stdout (self w') = saved)
  /\ (output_redirected (self w) = None -> w' = w)
  /\ (forall stop' line', postcmd stop' line' w' = (Ok stop', w')).
Proof.
  cbv zeta. unfold postcmd, bind, gets, modify, ret.
  destruct (output_redirected (self w)) as [s|] eqn:E; cbn.
  - repeat split; try congruence.
  - rewrite E. repeat split; try congruence.
Qed.

(* ===================================================================== *)
(** ** Further properties: the variable table *)
(* ===================================================================== *)

Lemma lookup_dict_set_same (k v : string) (d : list (string * string)) :
  lookup k (dict_set k v d) = Some v.
Proof.
  unfold lookup. induction d as [|[k' v'] d IH]; cbn.
  - rewrite String.eqb_refl. reflexivity.
  - destruct (String.eqb k' k) eqn:E; cbn.
    + rewrite String.eqb_refl. reflexivity.
    + rewrite E. exact IH.
Qed.

Lemma lookup_dict_set_other (k k' v : string) (d : list (string * string)) :
  k' <> k -> lookup k' (dict_set k v d) = lookup k' d.
Proof.
  intros Hne. apply String.eqb_neq in Hne. unfold lookup.
  induction d as [|[k0 v0] d IH]; cbn.
  - rewrite String.eqb_sym, Hne. reflexivity.
  - destruct (String.eqb k0 k) eqn:E; cbn.
    + apply String.eqb_eq in E. subst k0. rewrite String.eqb_sym, Hne. reflexivity.
    + destruct (String.eqb k0 k'); [reflexivity | exact IH].
Qed.

Lemma keys_dict_set (k v : string) (d : list (string * string)) :
  (In k (map fst d) -> map fst (dict_set k v d) = map fst d)
  /\ (~ In k (map fst d) -> dict_set k v d = (d ++ [(k, v)])%list).
Proof.
  induction d as [|[k' v'] d [IHin IHout]]; cbn.
  - split; [contradiction | reflexivity].
  - destruct (String.eqb k' k) eqn:E; cbn.
    + apply String.eqb_eq in E. subst k'. split; [reflexivity|].
      intros H. exfalso. apply H. left. reflexivity.
    + apply String.eqb_neq in E. split.
      * intros [H|H]; [contradiction|]. rewrite (IHin H). reflexivity.
      * intros H. rewrite IHout; [reflexivity|]. intros H'. apply H. right. exact H'.
Qed.

Lemma lookup_dict_del_same (k : string) (d : list (string * string)) :
  lookup k (dict_del k d) = None.
Proof.
  unfold lookup, dict_del. induction d as [|[k' v'] d IH]; cbn; [reflexivity|].
  destruct (String.eqb k' k) eqn:E; cbn; [exact IH|]. rewrite E. exact IH.
Qed.

Lemma lookup_dict_del_other (k k' : string) (d : list (string * string)) :
  k' <> k -> lookup k' (dict_del k d) = lookup k' d.
Proof.
  intros Hne. apply String.eqb_neq in Hne. unfold lookup, dict_del.
  induction d as [|[k0 v0] d IH]; cbn; [reflexivity|].
  destruct (String.eqb k0 k) eqn:E; cbn.
  - apply String.eqb_eq in E. subst k0. rewrite String.eqb_sym, Hne. exact IH.
  - destruct (String.eqb k0 k'); [reflexivity | exact IH].
Qed.

Lemma dict_del_absent (k : string) (d : list (string * string)) :
  lookup k d = None -> dict_del k d = d.
Proof.
  unfold lookup, dict_del. induction d as [|[k' v'] d IH]; cbn; [reflexivity|].
  destruct (String.eqb k' k) eqn:E; cbn; [discriminate|].
  intros H. rewrite (IH H). reflexivity.
Qed.

Lemma keys_dict_del (k : string) (d : list (string * string)) (x : string) :
  In x (map fst (dict_del k d)) -> In x (map fst d).
Proof.
  unfold dict_del. induction d as [|[k' v'] d IH]; cbn; [auto|].
  destruct (negb (String.eqb k' k)); cbn; intuition.
Qed.

Lemma unique_dict_set (k v : string) (d : list (string * string)) :
  NoDup (map fst d) -> NoDup (map fst (dict_set k v d)).
Proof.
  intros H. destruct (in_dec string_dec k (map fst d)) as [Hin|Hout].
  - rewrite (proj1 (keys_dict_set k v d) Hin). exact H.
  - rewrite (proj2 (keys_dict_set k v d) Hout), map_app. cbn.
    apply NoDup_app; [exact H | repeat constructor; auto |].
    intros x Hx [<-|[]]. contradiction.
Qed.

Lemma unique_dict_del (k : string) (d : list (string * string)) :
  NoDup (map fst d) -> NoDup (map fst (dict_del k d)).
Proof.
  induction d as [|[k' v'] d IH]; intros H; [constructor|].
  inversion H as [|? ? Hnotin Hrest]; subst.
  unfold dict_del. cbn. destruct (negb (String.eqb k' k)); cbn.
  - constructor; [|apply IH, Hrest].
    intros Hin. apply Hnotin. apply (keys_dict_del k d k' Hin).
  - apply IH, Hrest.
Qed.

Lemma split_first_at (sep : ascii) (k v : string) :
  has_char sep k = false ->
  split_first sep (k ++ String sep v) = Some (k, v).
Proof.
  induction k as [|c k IH]; intros H; cbn.
  - rewrite Ascii.eqb_refl. reflexivity.
  - cbn [has_char] in H. apply orb_false_iff in H. destruct H as [Hc Hk].
    rewrite Hc, (IH Hk). reflexivity.
Qed.

Lemma split_one_word (word : string) :
  plain_word word = true -> Shlex.split word = Ok [word].
Proof.
  intros H. apply (split_join_words [word]). cbn. rewrite H. reflexivity.
Qed.

Lemma do_set_one (k v : string) (w : World) :
  plain_word (k ++ "=" ++ v) = true ->
  has_char "=" k = false ->
  do_set (k ++ "=" ++ v) w
  = (Ok false, on_self (set_variables (dict_set k v (variables (self w)))) w).
Proof.
  intros Hword Hkey.
  unfold do_set, bind, lift, modify. rewrite (split_one_word _ Hword).
  cbn [fold_left]. change ("=" ++ v) with (String "=" v).
  rewrite (split_first_at "=" k v Hkey). reflexivity.
Qed.

(** X4: [set k=v], for a key without [=] and no white space, quotes or
    backslash in the word, assigns [v] to [k] and nothing else: [k] then maps
    to [v], every other key maps to what it did, a key that was in the table
    keeps its place and a new key goes last. *)
Theorem do_set_assigns (k v : string) (w : World) :
  plain_word (k ++ "=" ++ v) = true ->
  has_char "=" k = false ->
  let d := variables (self w) in
  do_set (k ++ "=" ++ v) w = (Ok false, on_self (set_variables (dict_set k v d)) w)
  /\ lookup k (dict_set k v d) = Some v
  /\ (forall k', k' <> k -> lookup k' (dict_set k v d) = lookup k' d)
  /\ (In k (map fst d) -> map fst (dict_set k v d) = map fst d)
  /\ (~ In k (map fst d) -> dict_set k v d = (d ++ [(k, v)])%list).
Proof.
  intros Hword Hkey d. repeat split.
  - apply do_set_one; assumption.
  - apply lookup_dict_set_same.
  - intros k' Hne. apply lookup_dict_set_other, Hne.
  - apply keys_dict_set.
  - apply keys_dict_set.
Qed.

Lemma do_set_assigns_witness :
  let w := on_self (set_variables [("P", "old"); ("Q", "q")]) example_world in
  let d := variables (self w) in
  do_set "P=com.example.app" w
  = (Ok false, on_self (set_variables (dict_set "P" "com.example.app" d)) w)
  /\ lookup "P" (dict_set "P" "com.example.app" d) = Some "com.example.app"
  /\ (forall k', k' <> "P" -> lookup k' (dict_set "P" "com.example.app" d) = lookup k' d)
  /\ (In "P" (map fst d) -> map fst (dict_set "P" "com.example.app" d) = map fst d)
  /\ (~ In "P" (map fst d) -> dict_set "P" "com.example.app" d = (d ++ [("P", "com.example.app")])%list).
Proof.
  exact (do_set_assigns "P" "com.example.app"
           (on_self (set_variables [("P", "old"); ("Q", "q")]) example_world)
           eq_refl eq_refl).
Defined.

(** X5: [unset k], for a word [k] without white space, quotes or backslash,
    removes [k] and nothing else: [k] is then not in the table, every other
    key maps to what it did, and when [k] was not in the table the table is
    the same. *)
Theorem do_unset_removes (k : string) (w : World) :
  plain_word k = true ->
  let d := variables (self w) in
  do_unset k w = (Ok false, on_self (set_variables (dict_del k d)) w)
  /\ lookup k (dict_del k d) = None
  /\ (forall k', k' <> k -> lookup k' (dict_del k d) = lookup k' d)
  /\ (lookup k d = None -> dict_del k d = d).
Proof.
  intros Hword d. repeat split.
  - unfold do_unset, bind, lift, modify. rewrite (split_one_word _ Hword). reflexivity.
  - apply lookup_dict_del_same.
  - intros k' Hne. apply lookup_dict_del_other, Hne.
  - apply dict_del_absent.
Qed.

Lemma do_unset_removes_witness :
  let w := on_self (set_variables [("P", "p"); ("Q", "q")]) example_world in
  let d := variables (self w) in
  do_unset "P" w = (Ok false, on_self (set_variables (dict_del "P" d)) w)
  /\ lookup "P" (dict_del "P" d) = None
  /\ (forall k', k' <> "P" -> lookup k' (dict_del "P" d) = lookup k' d)
  /\ (lookup "P" d = None -> dict_del "P" d = d).
Proof.
  exact (do_unset_removes "P"
           (on_self (set_variables [("P", "p"); ("Q", "q")]) example_world) eq_refl).
Defined.

(** X6: the keys of the variable table stay distinct: whatever the
    arguments of [set] and [unset] are, also when they cannot be tokenized,
    a table without a repeated key is left without a repeated key. *)
Theorem variables_keys_stay_unique (arguments : string) (w : World) :
  NoDup (map fst (variables (self w))) ->
  NoDup (map fst (variables (self (snd (do_set arguments w)))))
  /\ NoDup (map fst (variables (self (snd (do_unset arguments w))))).
Proof.
  intros H. unfold do_set, do_unset, bind, lift, modify, ret.
  destruct (Shlex.split arguments) as [toks|e]; [|split; exact H].
  cbn [snd self on_self variables set_variables]. split.
  - revert H. generalize (variables (self w)).
    induction toks as [|t toks IH]; intros d H; [exact H|].
    cbn [fold_left]. apply IH.
    destruct (split_first "=" t) as [[key value]|]; [apply unique_dict_set, H | exact H].
  - revert H. generalize (variables (self w)).
    induction toks as [|t toks IH]; intros d H; [exact H|].
    cbn [fold_left]. apply IH, unique_dict_del, H.
Qed.

Lemma variables_keys_stay_unique_witness :
  let w := on_self (set_variables [("P", "p"); ("Q", "q")]) example_world in
  NoDup (map fst (variables (self (snd (do_set "Q=1 R=2 P=3 novalue" w)))))
  /\ NoDup (map fst (variables (self (snd (do_unset "Q missing" w))))).
Proof.
  assert (H : NoDup (map fst [("P", "p"); ("Q", "q")])).
  { cbn. repeat constructor; cbn; intuition discriminate. }
  split.
  - exact (proj1 (variables_keys_stay_unique "Q=1 R=2 P=3 novalue"
                    (on_self (set_variables [("P", "p"); ("Q", "q")]) example_world) H)).
  - exact (proj2 (variables_keys_stay_unique "Q missing"
                    (on_self (set_variables [("P", "p"); ("Q", "q")]) example_world) H)).
Defined.

(** X7: a variable that was set is what its reference expands to: from an
    empty table, after [set k=v] the line [$k] is substituted to [v], when
    [v] has no history token. *)
Theorem set_then_substitute (k v : string) (w : World) :
  variables (self w) = [] ->
  plain_word (k ++ "=" ++ v) = true ->
  has_char "=" k = false ->
  has_bang v = false ->
  (_ <- do_set (k ++ "=" ++ v) ;; do_substitutions ("$" ++ k)) w
  = (Ok v, on_self (set_variables [(k, v)]) w).
Proof.
  intros Hempty Hword Hkey Hbang.
  unfold bind at 1. rewrite (do_set_one k v w Hword Hkey), Hempty. cbn [dict_set].
  unfold do_substitutions, bind, gets. cbn [PyStr.nonempty append negb].
  cbn [self on_self variables set_variables substitute_variables fold_left fst snd].
  rewrite replace_whole by discriminate. rewrite Hbang. reflexivity.
Qed.

Lemma set_then_substitute_witness :
  (_ <- do_set "P=com.example.app" ;; do_substitutions "$P") example_world
  = (Ok "com.example.app", on_self (set_variables [("P", "com.example.app")]) example_world).
Proof.
  exact (set_then_substitute "P" "com.example.app" example_world
           eq_refl eq_refl eq_refl eq_refl).
Defined.

(* ===================================================================== *)
(** ** Further properties: aliases *)
(* ===================================================================== *)

(** X8: a line of plain words whose first word is an alias is handed to the
    handler of the alias's target, with the other words, joined by single
    spaces, as its argument. *)
Theorem alias_forwards_arguments
        (getattr_do : string -> option (string -> M bool))
        (name target : string) (args : list string) (h : string -> M bool) (w : World) :
  forallb plain_word (name :: args) = true ->
  lookup name (aliases (self w)) = Some target ->
  getattr_do target = Some h ->
  default getattr_do (PyStr.join " " (name :: args)) w
  = (_ <- h (PyStr.join " " args) ;; ret false) w.
Proof.
  intros Hwords Halias Hh. unfold default, bind at 1, lift.
  rewrite (split_join_words _ Hwords). cbn [index nth_error].
  unfold bind at 1. unfold bind at 1, gets. rewrite Halias, Hh. reflexivity.
Qed.

Lemma alias_forwards_arguments_witness :
  default alias_commands "ls -a" alias_world
  = (Ok false, wrote SysStdout "-a" alias_world).
Proof.
  exact (alias_forwards_arguments alias_commands "ls" "list" ["-a"] _ alias_world
           eq_refl eq_refl eq_refl).
Defined.

(** X9: [default] never returns a stop flag: what the handler of an
    alias's target returns is dropped, so a command reached through an
    alias cannot stop the loop. *)
Theorem default_never_stops
        (getattr_do : string -> option (string -> M bool))
        (line : string) (w w' : World) (stop : bool) :
  default getattr_do line w = (Ok stop, w') -> stop = false.
Proof.
  unfold default, bind, lift, gets.
  destruct (Shlex.split line) as [argv|e]; [|discriminate].
  destruct (index argv 0) as [first|e]; [|discriminate].
  destruct (lookup first (aliases (self w))) as [target|].
  - destruct (getattr_do target) as [h|]; [|discriminate].
    destruct (h (PyStr.join " " (skipn 1 argv)) w) as [[b|e] w1]; [|discriminate].
    unfold ret. intros H. inversion H. reflexivity.
  - unfold write, modify, ret. intros H. inversion H. reflexivity.
Qed.

Lemma default_never_stops_witness :
  onecmd alias_commands "quit" alias_world
  = (Ok true, on_self (set_lastcmd "quit") alias_world)
  /\ fst (default alias_commands "q" alias_world) = Ok false.
Proof.
  split; [reflexivity|].
  exact (f_equal Ok
           (default_never_stops alias_commands "q" alias_world alias_world false eq_refl)).
Defined.

(* ===================================================================== *)
(** ** Further properties: what a command keeps *)
(* ===================================================================== *)

Lemma context_kept_refl (w : World) : context_kept w w.
Proof. unfold context_kept, same_context. auto 10. Qed.

Lemma context_kept_trans (w1 w2 w3 : World) :
  context_kept w1 w2 -> context_kept w2 w3 -> context_kept w1 w3.
Proof.
  unfold context_kept, same_context.
  intros [(A1 & A2 & A3 & A4 & A5) A6] [(B1 & B2 & B3 & B4 & B5) B6].
  repeat split; try congruence. auto.
Qed.

Lemma keeps_ret {A} (a : A) : keeps_context (ret a).
Proof. intros w. apply context_kept_refl. Qed.

Lemma keeps_raise {A} (e : exn) : keeps_context (@raise A e).
Proof. intros w. apply context_kept_refl. Qed.

Lemma keeps_lift {A} (r : result A) : keeps_context (lift r).
Proof. intros w. apply context_kept_refl. Qed.

Lemma keeps_gets {A} (f : World -> A) : keeps_context (gets f).
Proof. intros w. apply context_kept_refl. Qed.

Lemma keeps_modify (f : World -> World) :
  (forall w, context_kept w (f w)) -> keeps_context (modify f).
Proof. intros H w. apply H. Qed.

Lemma keeps_bind {A B} (m : M A) (k : A -> M B) :
  keeps_context m -> (forall a, keeps_context (k a)) -> keeps_context (bind m k).
Proof.
  intros Hm Hk w. unfold bind. specialize (Hm w).
  destruct (m w) as [[a|e] w1]; cbn [snd] in *; [|exact Hm].
  apply (context_kept_trans _ _ _ Hm), Hk.
Qed.

Lemma keeps_try_except {A} (m : M A) (h : exn -> option (M A)) :
  keeps_context m -> (forall e k, h e = Some k -> keeps_context k) ->
  keeps_context (try_except m h).
Proof.
  intros Hm Hh w. unfold try_except. specialize (Hm w).
  destruct (m w) as [[a|e] w1]; cbn [snd] in *; [exact Hm|].
  destruct (h e) as [k|] eqn:E; [|exact Hm].
  apply (context_kept_trans _ _ _ Hm), (Hh e k E).
Qed.

Lemma keeps_write (s : stream) (text : string) : keeps_context (write s text).
Proof. intros w. unfold context_kept, same_context. cbn. auto 10. Qed.

Lemma keeps_print (text : string) : keeps_context (print text).
Proof. apply keeps_write. Qed.

Ltac keeps_field :=
  let w := fresh "w" in
  apply keeps_modify; intros w; unfold context_kept, same_context; cbn; auto 10.

Ltac keeps_step :=
  match goal with
  | |- keeps_context (bind _ _) => apply keeps_bind; [|intros ?]
  | |- keeps_context (ret _) => apply keeps_ret
  | |- keeps_context (raise _) => apply keeps_raise
  | |- keeps_context (lift _) => apply keeps_lift
  | |- keeps_context (gets _) => apply keeps_gets
  | |- keeps_context (write _ _) => apply keeps_write
  | |- keeps_context (print _) => apply keeps_print
  | |- keeps_context (modify _) => keeps_field
  | |- keeps_context (if ?b then _ else _) => destruct b
  | |- keeps_context (match ?x with _ => _ end) => destruct x
  end.

Lemma keeps_do_last_command_substitutions (line : string) :
  keeps_context (do_last_command_substitutions line).
Proof. unfold do_last_command_substitutions. repeat keeps_step. Qed.

Lemma keeps_do_substitutions (line : string) : keeps_context (do_substitutions line).
Proof.
  unfold do_substitutions. repeat keeps_step.
  apply keeps_do_last_command_substitutions.
Qed.

Lemma keeps_new_tee (host : Host) (console : stream) (name : string) (mode : open_mode) :
  keeps_context (new_tee host console name mode).
Proof. unfold new_tee. repeat keeps_step. Qed.

Lemma keeps_build_tee (host : Host) (console : stream) (destination : string) :
  keeps_context (build_tee host console destination).
Proof. unfold build_tee. repeat keeps_step; apply keeps_new_tee. Qed.

Lemma keeps_redirect_output (host : Host) (line : string) :
  keeps_context (redirect_output host line).
Proof.
  unfold redirect_output.
  destruct (PyStr.rsplit1 ">" line) as [|l [|d [|? ?]]]; try apply keeps_raise.
  destruct (0 <? String.length d)%nat; [|repeat keeps_step].
  apply keeps_bind; [|intros ?; repeat keeps_step].
  apply keeps_try_except.
  - repeat keeps_step. apply keeps_build_tee.
  - intros e k H. destruct e; inversion H; subst. repeat keeps_step.
Qed.

Lemma keeps_precmd (host : Host) (line : string) : keeps_context (precmd host line).
Proof.
  unfold precmd. apply keeps_bind; [apply keeps_do_substitutions | intros sline].
  repeat keeps_step. apply keeps_redirect_output.
Qed.

Lemma keeps_postcmd (stop : bool) (line : string) : keeps_context (postcmd stop line).
Proof. unfold postcmd. repeat keeps_step. Qed.

Section Keeping.

Variable host : Host.
Variable getattr_do : string -> option (string -> M bool).
Hypothesis handlers : handlers_keep_context getattr_do.

Lemma keeps_default (line : string) : keeps_context (default getattr_do line).
Proof.
  unfold default.
  apply keeps_bind; [apply keeps_lift | intros argv].
  apply keeps_bind; [apply keeps_lift | intros first].
  apply keeps_bind; [apply keeps_gets | intros als].
  destruct (lookup first als) as [target|]; [|repeat keeps_step].
  destruct (getattr_do target) as [h|] eqn:E; [|apply keeps_raise].
  apply keeps_bind; [apply (handlers _ _ _ E) | intros; apply keeps_ret].
Qed.

Lemma keeps_onecmd (line : string) : keeps_context (onecmd getattr_do line).
Proof.
  unfold onecmd, emptyline.
  destruct (parseline getattr_do line) as [[cmd arg] l].
  destruct (negb (PyStr.nonempty l)); [apply keeps_ret|].
  destruct cmd as [cmd|]; [destruct arg as [arg|]|]; try apply keeps_default.
  apply keeps_bind; [keeps_field | intros _].
  apply keeps_bind;
    [destruct (String.eqb l "EOF"); [keeps_field | apply keeps_ret] | intros _].
  destruct (String.eqb cmd EmptyString); [apply keeps_default|].
  destruct (getattr_do cmd) as [h|] eqn:E; [apply (handlers cmd h _ E) | apply keeps_default].
Qed.

Lemma keeps_run_command (line : string) : keeps_context (run_command host getattr_do line).
Proof.
  unfold run_command. apply keeps_bind; [apply keeps_precmd | intros l].
  apply keeps_bind; [apply keeps_onecmd | intros stop]. apply keeps_postcmd.
Qed.

Lemma keeps_read_line : keeps_context read_line.
Proof. unfold read_line. repeat keeps_step. Qed.

Lemma keeps_on_value_error (e : exn) : keeps_context (on_value_error e).
Proof. unfold on_value_error. repeat keeps_step. Qed.

Lemma keeps_loop_turn : keeps_context (loop_turn host getattr_do).
Proof.
  unfold loop_turn. apply keeps_bind; [apply keeps_read_line | intros line].
  apply keeps_try_except; [apply keeps_run_command|].
  intros e k H. destruct e; inversion H; subst. apply keeps_on_value_error.
Qed.

Lemma keeps_while_not_stop (fuel : nat) : keeps_context (while_not_stop host getattr_do fuel).
Proof.
  induction fuel as [|fuel IH]; cbn [while_not_stop]; [apply keeps_ret|].
  apply keeps_bind; [apply keeps_loop_turn | intros stop].
  destruct stop; [apply keeps_ret | exact IH].
Qed.

End Keeping.

Lemma fold_print_returns (notices : list string) (m : M unit) :
  (forall w, fst (m w) = Ok tt) ->
  forall w, fst (fold_left (fun m notice => m ;; print notice) notices m w) = Ok tt.
Proof.
  revert m; induction notices as [|n notices IH]; intros m Hm w; [apply Hm|].
  cbn [fold_left]. apply IH. intros w1. unfold bind. specialize (Hm w1).
  destruct (m w1) as [[[]|e] w2]; [reflexivity | discriminate].
Qed.

Lemma keeps_fold_print (notices : list string) (m : M unit) :
  keeps_context m ->
  keeps_context (fold_left (fun m notice => m ;; print notice) notices m).
Proof.
  revert m; induction notices as [|n notices IH]; intros m Hm; [exact Hm|].
  cbn [fold_left]. apply IH. apply keeps_bind; [exact Hm | intros; apply keeps_print].
Qed.

(** [preloop] returns, and keeps the context. *)
Lemma preloop_returns (host : Host) (w : World) :
  exists w0, preloop host w = (Ok tt, w0) /\ context_kept w w0.
Proof.
  assert (Hk : keeps_context (preloop host)).
  { unfold preloop, checkVer. repeat keeps_step; apply keeps_fold_print, keeps_ret. }
  assert (Hr : fst (preloop host w) = Ok tt).
  { unfold preloop, checkVer, bind, gets.
    destruct (truthy (intro (self w))); cbn;
      apply fold_print_returns; reflexivity. }
  specialize (Hk w). destruct (preloop host w) as [r w0]. cbn in Hr, Hk. subst r.
  exists w0. auto.
Qed.

(** The guarded loop of [cmdloop] keeps the context when the handlers do,
    and ends in one of two ways: it returns, also when an exception that
    derives from [Exception] was raised in it, or it raises an exception
    that does not derive from [Exception]. *)
Lemma guarded_loop_ends
      (host : Host) (getattr_do : string -> option (string -> M bool)) (fuel : nat) (w : World) :
  handlers_keep_context getattr_do ->
  exists res w2,
    try_except
      (r <- while_not_stop host getattr_do fuel ;; postloop ;; ret r)
      (fun e => if is_exception e
                then Some (print "Loop exception" ;; handleException e false ;; ret (Some tt))
                else None) w
    = (res, w2)
    /\ context_kept w w2
    /\ ((exists r, res = Ok r) \/ (exists e, res = Raise e /\ is_exception e = false)).
Proof.
  intros Hh.
  pose proof (keeps_while_not_stop host getattr_do Hh fuel w) as Hk.
  unfold try_except, bind at 1.
  destruct (while_not_stop host getattr_do fuel w) as [[r|e] w1]; cbn [snd] in Hk.
  - exists (Ok r), w1. split; [reflexivity | split; [exact Hk | left; eauto]].
  - destruct (is_exception e) eqn:Ee.
    + eexists. eexists. split; [reflexivity|]. split; [|left; eauto].
      apply (context_kept_trans _ _ _ Hk).
      unfold context_kept, same_context. cbn. auto 10.
    + exists (Raise e), w1. split; [reflexivity | split; [exact Hk | right; eauto]].
Qed.

Lemma truthy_some (o : option string) : truthy o = true -> o <> None.
Proof. destruct o; [discriminate | discriminate]. Qed.

Lemma editing_kept (w w' : World) : context_kept w w' -> editing w' = editing w.
Proof.
  unfold context_kept, same_context, editing.
  intros [(_ & _ & _ & Hk & _) Hr]. rewrite Hk, Hr. reflexivity.
Qed.

(** Calls that preserve a reflexive and transitive relation between the
    state before and the state after compose. *)
Section Preserving.

Variable R : World -> World -> Prop.
Hypothesis R_refl : forall w, R w w.
Hypothesis R_trans : forall w1 w2 w3, R w1 w2 -> R w2 w3 -> R w1 w3.

Lemma preserves_ret {A} (a : A) : preserves R (ret a).
Proof. intros w. apply R_refl. Qed.

Lemma preserves_raise {A} (e : exn) : preserves R (@raise A e).
Proof. intros w. apply R_refl. Qed.

Lemma preserves_lift {A} (r : result A) : preserves R (lift r).
Proof. intros w. apply R_refl. Qed.

Lemma preserves_gets {A} (f : World -> A) : preserves R (gets f).
Proof. intros w. apply R_refl. Qed.

Lemma preserves_bind {A B} (m : M A) (k : A -> M B) :
  preserves R m -> (forall a, preserves R (k a)) -> preserves R (bind m k).
Proof.
  intros Hm Hk w. unfold bind. specialize (Hm w).
  destruct (m w) as [[a|e] w1]; cbn [snd] in *; [|exact Hm].
  apply (R_trans _ _ _ Hm), Hk.
Qed.

Lemma preserves_try_except {A} (m : M A) (h : exn -> option (M A)) :
  preserves R m -> (forall e k, h e = Some k -> preserves R k) ->
  preserves R (try_except m h).
Proof.
  intros Hm Hh w. unfold try_except. specialize (Hm w).
  destruct (m w) as [[a|e] w1]; cbn [snd] in *; [exact Hm|].
  destruct (h e) as [k|] eqn:E; [|exact Hm].
  apply (R_trans _ _ _ Hm), (Hh e k E).
Qed.

End Preserving.

Lemma raw_kept_refl (w : World) : raw_kept w w.
Proof. reflexivity. Qed.

Lemma raw_kept_trans (w1 w2 w3 : World) : raw_kept w1 w2 -> raw_kept w2 w3 -> raw_kept w1 w3.
Proof. unfold raw_kept. congruence. Qed.

Ltac raw_step :=
  match goal with
  | |- preserves raw_kept (bind _ _) =>
      apply (preserves_bind raw_kept raw_kept_trans); [|intros ?]
  | |- preserves raw_kept (ret _) => apply (preserves_ret raw_kept raw_kept_refl)
  | |- preserves raw_kept (raise _) => apply (preserves_raise raw_kept raw_kept_refl)
  | |- preserves raw_kept (lift _) => apply (preserves_lift raw_kept raw_kept_refl)
  | |- preserves raw_kept (gets _) => apply (preserves_gets raw_kept raw_kept_refl)
  | |- preserves raw_kept (modify _) => intros ?; reflexivity
  | |- preserves raw_kept clear_history => intros ?; reflexivity
  | |- preserves raw_kept (set_completer _) => intros ?; reflexivity
  | |- preserves raw_kept (if ?b then _ else _) => destruct b
  | |- preserves raw_kept (match ?x with _ => _ end) => destruct x
  end.

Lemma raw_write_history_file (host : Host) (path : string) :
  preserves raw_kept (write_history_file host path).
Proof. unfold write_history_file. repeat raw_step. Qed.

Lemma raw_read_history_file (host : Host) (path : string) :
  preserves raw_kept (read_history_file host path).
Proof.
  intros w. unfold read_history_file.
  destruct (disk_lookup path (disk (proc w))); [|reflexivity].
  destruct (read_history_error host path) as [[? ?]|]; reflexivity.
Qed.

Lemma raw_pop_last {A} (get : Cmd -> list A) (set : list A -> Cmd -> Cmd) :
  (forall l c, use_rawinput (set l c) = use_rawinput c) ->
  preserves raw_kept (pop_last get set).
Proof.
  intros H w. unfold pop_last, raw_kept.
  destruct (rev (get (self w))); cbn; [reflexivity | apply H].
Qed.

(** [push_completer] and [pop_completer] leave the mode of input alone. *)
Lemma raw_push_completer (host : Host) (c : completer) (hf : option string) :
  preserves raw_kept (push_completer host c hf).
Proof.
  unfold push_completer. repeat raw_step; try apply raw_write_history_file.
  apply (preserves_try_except raw_kept raw_kept_trans);
    [apply raw_read_history_file|].
  intros e k H. destruct e; inversion H; subst. repeat raw_step.
Qed.

Lemma raw_pop_completer (host : Host) : preserves raw_kept (pop_completer host).
Proof.
  unfold pop_completer.
  repeat raw_step;
    try apply raw_write_history_file; try apply raw_read_history_file;
    apply raw_pop_last; reflexivity.
Qed.

(** What [try ... finally] gives when the [finally] block returns. *)
Lemma try_finally_returns {A} (m : M A) (f : M unit) (res : result A) (w w1 w2 : World) :
  m w = (res, w1) ->
  f w1 = (Ok tt, w2) ->
  try_finally m f w = (res, w2).
Proof.
  intros Hm Hf. unfold try_finally. rewrite Hm, Hf. reflexivity.
Qed.

(** X10: [cmdloop] pops the completer it pushed, however the loop ends.
    When no history file operation is refused and the handlers leave the
    completion context alone, [cmdloop] ends in one of two ways: it returns
    (an exception of the loop that derives from [Exception] is reported,
    not raised), or it raises an exception that [except Exception] does not
    catch (a [SystemExit] or a [KeyboardInterrupt], say).  In both
    cases the [finally] block has run: the line editor's completer and the
    two stacks are what they were before the call. *)
Theorem cmdloop_restores_completer
        (host : Host) (getattr_do : string -> option (string -> M bool))
        (fuel : nat) (w : World) :
  reliable host ->
  handlers_keep_context getattr_do ->
  let w' := snd (cmdloop host getattr_do fuel w) in
  ((exists r, fst (cmdloop host getattr_do fuel w) = Ok r)
   \/ (exists e, fst (cmdloop host getattr_do fuel w) = Raise e /\ is_exception e = false))
  /\ rl_completer (rl w') = rl_completer (rl w)
  /\ completer_stack (self w') = completer_stack (self w)
  /\ history_stack (self w') = history_stack (self w).
Proof.
  intros Hrel Hh. cbv zeta.
  destruct (preloop_returns host w) as (w0 & Hp & [(P1 & P2 & P3 & P4 & P5) P6]).
  remember (cmdloop host getattr_do fuel w) as res eqn:E.
  unfold cmdloop in E. unfold bind at 1 in E. rewrite Hp in E.
  unfold bind at 1, gets at 1 in E. unfold bind at 1 in E.
  destruct (editing w0) eqn:Eed; [destruct (has_readline host) eqn:Hrl|].
  - (* the completer is pushed and popped *)
    unfold bind at 1, gets at 1 in E.
    pose proof (push_completer_spec host w0 CmdComplete (history_file (self w0)) Hrl) as Hpush.
    pose proof (raw_push_completer host CmdComplete (history_file (self w0)) w0) as Hraw.
    destruct (push_completer host CmdComplete (history_file (self w0)) w0) as [r1 w1].
    cbn [snd] in Hraw. unfold raw_kept in Hraw.
    destruct Hpush as [Hok Hrun].
    assert (Hkey : completekey (self w0) <> None).
    { unfold editing in Eed. apply andb_true_iff in Eed. apply truthy_some, Eed. }
    rewrite (Hrun Hrel Hkey) in *.
    destruct (Hok eq_refl) as (Hcs1 & Hhs1 & Hc1 & Hk1 & Hmono1 & Htop1).
    destruct (guarded_loop_ends host getattr_do fuel w1 Hh)
      as (lres & w2 & Hg & [(G1 & G2 & G3 & G4 & G5) G6] & Hend).
    assert (Eed2 : editing w2 = true).
    { unfold editing. rewrite G6, G4, Hk1.
      rewrite Hraw. exact Eed. }
    rewrite Hhs1 in G1. rewrite Hcs1 in G2.
    pose proof (pop_completer_spec host w2 _ _ _ _ Hrl G1 G2) as Hpop.
    destruct (pop_completer host w2) as [r3 w3] eqn:Epop. destruct Hpop as [Hpok Hprun].
    assert (Hr3 : r3 = Ok tt).
    { apply Hprun; [exact Hrel|]. intros hs' f Eh Ef. apply G5, (Htop1 hs' f Eh Ef). }
    subst r3. destruct (Hpok eq_refl) as (F1 & F2 & F3 & _).
    rewrite (try_finally_returns _ _ lres w1 w2 w3 Hg) in E
      by (unfold bind, gets; rewrite Eed2; exact Epop).
    subst res. cbn [fst snd]. repeat split; [exact Hend | congruence..].
  - (* no line editor: pushing and popping do nothing *)
    unfold bind at 1, gets at 1 in E.
    unfold push_completer in E. rewrite Hrl in E. unfold ret at 1 in E.
    destruct (guarded_loop_ends host getattr_do fuel w0 Hh)
      as (lres & w2 & Hg & [(G1 & G2 & G3 & G4 & G5) G6] & Hend).
    rewrite (try_finally_returns _ _ lres w0 w2 w2 Hg) in E
      by (unfold bind, gets, pop_completer; rewrite Hrl;
          destruct (editing w2); reflexivity).
    subst res. cbn [fst snd]. repeat split; [exact Hend | congruence..].
  - (* no completion key or no raw input: nothing is pushed *)
    unfold ret at 1 in E.
    destruct (guarded_loop_ends host getattr_do fuel w0 Hh)
      as (lres & w2 & Hg & Hkept & Hend).
    rewrite (try_finally_returns _ _ lres w0 w2 w2 Hg) in E
      by (unfold bind, gets; rewrite (editing_kept _ _ Hkept), Eed; reflexivity).
    destruct Hkept as [(G1 & G2 & G3 & G4 & G5) G6].
    subst res. cbn [fst snd]. repeat split; [exact Hend | congruence..].
Qed.

(** The example commands keep the context. *)
Lemma example_commands_keep_context : handlers_keep_context example_commands.
Proof.
  intros name h arg. unfold example_commands.
  destruct (String.eqb name "foo"); [intros H; inversion H; subst; repeat keeps_step|].
  destruct (String.eqb name "boom"); [|discriminate].
  intros H; inversion H; subst. apply keeps_raise.
Qed.

Lemma cmdloop_restores_completer_witness :
  let w := on_self (set_cmdqueue ["foo a"; "boom"; "foo b"]) example_world in
  let w' := snd (cmdloop example_host example_commands 5 w) in
  ((exists r, fst (cmdloop example_host example_commands 5 w) = Ok r)
   \/ (exists e, fst (cmdloop example_host example_commands 5 w) = Raise e
                  /\ is_exception e = false))
  /\ rl_completer (rl w') = rl_completer (rl w)
  /\ completer_stack (self w') = completer_stack (self w)
  /\ history_stack (self w') = history_stack (self w).
Proof.
  apply (cmdloop_restores_completer example_host example_commands 5).
  - intros path. split; reflexivity.
  - exact example_commands_keep_context.
Defined.

(** The two ways [cmdloop] ends, on the example shell: the [RuntimeError]
    of [boom] is reported and [cmdloop] returns; the [SystemExit] of
    [leave] is raised by [cmdloop], after the completer was popped. *)
Example runtime_error_is_reported :
  let w := on_self (set_cmdqueue ["boom"; "foo b"]) example_world in
  fst (cmdloop example_host example_commands 5 w) = Ok (Some tt).
Proof. reflexivity. Qed.

Example system_exit_leaves_cmdloop :
  let w := on_self (set_cmdqueue ["leave"; "foo b"]) example_world in
  let res := cmdloop example_host leaving_commands 5 w in
  fst res = Raise (OtherError "SystemExit" "0")
  /\ rl_completer (rl (snd res)) = rl_completer (rl w)
  /\ completer_stack (self (snd res)) = completer_stack (self w)
  /\ history_stack (self (snd res)) = history_stack (self w).
Proof. cbv zeta. repeat split; reflexivity. Qed.

(* ===================================================================== *)
(** ** Further properties: how the loop ends, and when it does not *)
(* ===================================================================== *)



Lemma run_command_eof
      (host : Host) (getattr_do : string -> option (string -> M bool)) (w : World) :
  getattr_do "EOF" = None ->
  at_end_of_input w ->
  exists w', run_command host getattr_do "EOF" w = (Ok false, w') /\ at_end_of_input w'.
Proof.
  intros Hg (Hq & Hin & Hal).
  unfold run_command, bind at 1.
  rewrite (precmd_unchanged host "EOF" ["EOF"] w) by reflexivity.
  unfold bind at 1. unfold onecmd.
  change (parseline getattr_do "EOF") with (Some "EOF", Some EmptyString, "EOF").
  cbv iota beta. cbn [PyStr.nonempty negb String.eqb Ascii.eqb Bool.eqb andb].
  rewrite Hg. unfold default.
  change (Shlex.split "EOF") with (@Ok (list string) ["EOF"]).
  unfold bind, modify, lift, gets, index, ret, write. cbn [nth_error].
  cbn [self on_self aliases set_lastcmd]. rewrite Hal.
  unfold postcmd, bind, gets, modify, ret. cbn.
  destruct (output_redirected (self w));
    eexists; (split; [reflexivity | unfold at_end_of_input; cbn; auto]).
Qed.

Lemma read_line_at_end (w : World) :
  at_end_of_input w ->
  exists w', read_line w = (Ok "EOF", w') /\ at_end_of_input w'.
Proof.
  intros (Hq & Hin & Hal). unfold read_line, bind at 1, gets at 1. rewrite Hq.
  unfold bind, gets, write, modify, ret.
  destruct (use_rawinput (self w)); cbn; rewrite Hin;
    eexists; (split; [reflexivity | unfold at_end_of_input; cbn; auto]).
Qed.

Lemma loop_turn_at_end
      (host : Host) (getattr_do : string -> option (string -> M bool)) (w : World) :
  getattr_do "EOF" = None ->
  at_end_of_input w ->
  exists w', loop_turn host getattr_do w = (Ok false, w') /\ at_end_of_input w'.
Proof.
  intros Hg Hend. unfold loop_turn, bind.
  destruct (read_line_at_end w Hend) as (w1 & -> & Hend1).
  unfold try_except.
  destruct (run_command_eof host getattr_do w1 Hg Hend1) as (w2 & -> & Hend2).
  exists w2. auto.
Qed.

(** X12: the end of the input does not end the loop.  When the input is at
    its end, nothing is queued and the application has no [EOF] command or
    alias, the line [EOF] is dispatched to [default] turn after turn: for
    any number of turns the loop is still running, and it has not raised. *)
Theorem end_of_input_does_not_stop
        (host : Host) (getattr_do : string -> option (string -> M bool))
        (fuel : nat) (w : World) :
  getattr_do "EOF" = None ->
  at_end_of_input w ->
  fst (while_not_stop host getattr_do fuel w) = Ok None
  /\ at_end_of_input (snd (while_not_stop host getattr_do fuel w)).
Proof.
  intros Hg. revert w. induction fuel as [|fuel IH]; intros w Hend.
  - split; [reflexivity | exact Hend].
  - cbn [while_not_stop]. unfold bind.
    destruct (loop_turn_at_end host getattr_do w Hg Hend) as (w1 & -> & Hend1).
    apply IH, Hend1.
Qed.

Lemma end_of_input_does_not_stop_witness :
  fst (while_not_stop example_host example_commands 3 example_world) = Ok None
  /\ at_end_of_input (snd (while_not_stop example_host example_commands 3 example_world)).
Proof.
  apply (end_of_input_does_not_stop example_host example_commands 3 example_world).
  - reflexivity.
  - repeat split.
Defined.

(* ===================================================================== *)
(** ** Further properties: the history across a nested context *)
(* ===================================================================== *)










(** Without the condition on the entries the history changes: the empty
    entry is lost, and the entry with a line end comes back as two. *)
Example pasted_history_is_not_restored :
  let res := (push_completer example_host (HostCompleter 1) (Some ".shell_history") ;;
              pop_completer example_host) pasted_world in
  fst res = Ok tt
  /\ rl_history (rl pasted_world) = ["list"; EmptyString; "quit"; "a" ++ PyStr.nl ++ "b"]
  /\ rl_history (rl (snd res)) = ["list"; "quit"; "a"; "b"].
Proof. cbv zeta. repeat split; reflexivity. Qed.

(* ===================================================================== *)
(** ** Further properties: completion *)
(* ===================================================================== *)

Section CompletionFacts.

Variable host : Host.
Variable sep : string.
Variable get_names : list string.
Variable getattr_do : string -> option (string -> M bool).
Variable getattr_complete :
  string -> option (string -> string -> Z -> Z -> result (list string)).

Lemma find_from_lower (sub s : string) (i : Z) :
  (PyStr.find_from sub s i = -1 \/ i <= PyStr.find_from sub s i)%Z.
Proof.
  revert i; induction s as [|c s IH]; intros i; cbn [PyStr.find_from].
  - destruct (prefix sub EmptyString); [right; lia | left; reflexivity].
  - destruct (prefix sub (String c s)); [right; lia|].
    destruct (IH (i + 1)%Z) as [H|H]; [left; exact H | right; lia].
Qed.

(** X14: completing the target of a redirection offers nothing.  With
    [readline], when the word to complete starts after a [>] of the line,
    [complete] at state 0 raises [TypeError], [completefilename] being a
    placeholder that returns [None]; [completion_matches] is then [None],
    and every later state returns [None]. *)
Theorem completion_after_redirect_raises
        (origline text : string) (get_begidx get_endidx : Z) (cm : completion_matches) :
  has_readline host = true ->
  PyStr.contains ">" (PyStr.lstrip origline) = true ->
  (PyStr.find (PyStr.lstrip origline) ">" < begidx_of origline get_begidx)%Z ->
  complete host sep get_names getattr_do getattr_complete
           origline get_begidx get_endidx text 0 cm
  = (Raise not_subscriptable, NoMatches)
  /\ forall text' n,
      complete host sep get_names getattr_do getattr_complete
               origline get_begidx get_endidx text' (S n) NoMatches
      = (Ok None, NoMatches).
Proof.
  intros Hrl Hin Hlt. split; [|reflexivity].
  unfold complete. rewrite Hrl. cbv zeta. fold (begidx_of origline get_begidx).
  rewrite Hin. unfold PyStr.contains in Hin. apply Z.leb_le in Hin.
  replace (0 <? begidx_of origline get_begidx)%Z with true
    by (symmetry; apply Z.ltb_lt; lia).
  replace (PyStr.find (PyStr.lstrip origline) ">" <? begidx_of origline get_begidx)%Z
    with true by (symmetry; apply Z.ltb_lt; exact Hlt).
  reflexivity.
Qed.

(** X15: at the start of a line the candidates are command names.  With
    [readline], when the word to complete starts the line, [complete] at
    state 0 stores one candidate for each attribute [do_<name>] whose name
    starts with the text, in the order of [get_names]: the name followed by
    a space, or the name alone when it is the only candidate and ends in
    the path separator.  It returns the first candidate, and the later
    states return the others in turn and [None] after the last. *)
Theorem completion_of_command_names
        (origline text : string) (get_begidx get_endidx : Z) (cm : completion_matches) :
  has_readline host = true ->
  (begidx_of origline get_begidx <= 0)%Z ->
  let names :=
    map (slice_from 3) (filter (fun attr => prefix ("do_" ++ text) attr) get_names) in
  let ms :=
    match names with
    | [name] => if endswith name sep then [name] else [name ++ " "]
    | _ => map (fun name => name ++ " ") names
    end in
  complete host sep get_names getattr_do getattr_complete
           origline get_begidx get_endidx text 0 cm
  = (Ok (nth_error ms 0), Matches ms)
  /\ forall n,
      complete host sep get_names getattr_do getattr_complete
               origline get_begidx get_endidx text (S n) (Matches ms)
      = (Ok (nth_error ms (S n)), Matches ms).
Proof.
  intros Hrl Hle. cbv zeta. split; [|reflexivity].
  unfold complete. rewrite Hrl. cbv zeta.
  fold (begidx_of origline get_begidx).
  replace (0 <? begidx_of origline get_begidx)%Z with false
    by (symmetry; apply Z.ltb_ge; exact Hle).
  unfold store_matches, nth_match, completenames.
  destruct (map (slice_from 3) (filter (fun attr => prefix ("do_" ++ text) attr) get_names))
    as [|name [|name' rest]].
  - reflexivity.
  - cbn [List.length Nat.eqb andb]. destruct (endswith name sep); reflexivity.
  - reflexivity.
Qed.

Lemma rstrip_keeps_head (c : ascii) (s : string) :
  PyStr.is_space c = false -> exists s', PyStr.rstrip (String c s) = String c s'.
Proof.
  intros Hc. cbn [PyStr.rstrip]. destruct (PyStr.rstrip s); rewrite ?Hc; eauto.
Qed.

(** X16: completing an argument on a line that starts with [!] raises.
    With [readline] and no [shell] command, when the line stripped on the
    left starts with [!] and the word to complete is not at its start (nor
    after a [>]), [parseline] gives no command and [complete] at state 0
    raises the [TypeError] of ['complete_' + None], leaving
    [completion_matches] as it was. *)
Theorem completion_after_bang_raises
        (origline rest text : string) (get_begidx get_endidx : Z) (cm : completion_matches) :
  has_readline host = true ->
  getattr_do "shell" = None ->
  PyStr.lstrip origline = String "!" rest ->
  (0 < begidx_of origline get_begidx)%Z ->
  PyStr.contains ">" (PyStr.lstrip origline)
  && (PyStr.find (PyStr.lstrip origline) ">" <? begidx_of origline get_begidx)%Z = false ->
  complete host sep get_names getattr_do getattr_complete
           origline get_begidx get_endidx text 0 cm
  = (Raise cannot_concatenate, cm).
Proof.
  intros Hrl Hshell Hbang Hpos Hnot. unfold complete. rewrite Hrl. cbv zeta.
  fold (begidx_of origline get_begidx). rewrite Hnot.
  replace (0 <? begidx_of origline get_begidx)%Z with true
    by (symmetry; apply Z.ltb_lt; exact Hpos).
  rewrite Hbang. unfold parseline, PyStr.strip.
  change (PyStr.lstrip (String "!" rest)) with (String "!" rest).
  destruct (rstrip_keeps_head "!" rest eq_refl) as (s' & ->).
  cbn [Ascii.eqb Bool.eqb]. rewrite Hshell. reflexivity.
Qed.

End CompletionFacts.

Lemma completion_after_redirect_raises_witness :
  complete example_host "/" example_names alias_commands no_completers
           "list -a > ou" 10 12 "ou" 0 Unset
  = (Raise not_subscriptable, NoMatches)
  /\ forall text' n,
      complete example_host "/" example_names alias_commands no_completers
               "list -a > ou" 10 12 text' (S n) NoMatches
      = (Ok None, NoMatches).
Proof.
  apply (completion_after_redirect_raises example_host "/" example_names alias_commands
           no_completers "list -a > ou" "ou" 10 12 Unset); reflexivity.
Defined.

Lemma completion_of_command_names_witness :
  complete example_host "/" example_names alias_commands no_completers
           "  l" 2 3 "l" 0 Unset
  = (Ok (Some "list "), Matches ["list "; "load "])
  /\ forall n,
      complete example_host "/" example_names alias_commands no_completers
               "  l" 2 3 "l" (S n) (Matches ["list "; "load "])
      = (Ok (nth_error ["list "; "load "] (S n)), Matches ["list "; "load "]).
Proof.
  apply (completion_of_command_names example_host "/" example_names alias_commands
           no_completers "  l" "l" 2 3 Unset); [reflexivity | discriminate].
Defined.

Lemma completion_after_bang_raises_witness :
  complete example_host "/" example_names alias_commands no_completers
           "!ls /tm" 4 7 "/tm" 0 (Matches ["list "])
  = (Raise cannot_concatenate, Matches ["list "]).
Proof.
  apply (completion_after_bang_raises example_host "/" example_names alias_commands
           no_completers "!ls /tm" "ls /tm" "/tm" 4 7); reflexivity.
Defined.

(* ===================================================================== *)
(** ** Further properties: history tokens, the target of a redirection, [env] *)
(* ===================================================================== *)

Lemma has_char_app (c : ascii) (a b : string) :
  has_char c (a ++ b) = has_char c a || has_char c b.
Proof.
  induction a as [|x a IH]; cbn; [reflexivity|]. rewrite IH, orb_assoc. reflexivity.
Qed.

Lemma has_char_join (c : ascii) (ws : list string) :
  Ascii.eqb " " c = false ->
  forallb (fun s => negb (has_char c s)) ws = true ->
  has_char c (PyStr.join " " ws) = false.
Proof.
  intros Hc. unfold PyStr.join. induction ws as [|a ws IH]; intros H; [reflexivity|].
  cbn [forallb] in H. apply andb_true_iff in H. destruct H as [Ha Hws].
  apply negb_true_iff in Ha. destruct ws as [|b ws]; [exact Ha|].
  change (String.concat " " (a :: b :: ws)) with (a ++ String " " (String.concat " " (b :: ws))).
  rewrite has_char_app, Ha. cbn [has_char orb]. rewrite Hc. apply IH, Hws.
Qed.

Lemma index_last_is_last {A} (l : list A) (d : A) :
  l <> [] -> index_last l = Ok (last l d).
Proof.
  intros Hne. destruct (snoc_cases l) as [->|(l' & x & ->)]; [congruence|].
  rewrite index_last_snoc, last_last. reflexivity.
Qed.

Lemma replace_no_char (c : ascii) (n s new : string) :
  has_char c s = false -> PyStr.replace s (String c n) new = s.
Proof.
  intros H. apply replace_absent; [discriminate|]. apply find_from_no_char, H.
Qed.

(** X17: the history tokens on a last command of plain words.  When the
    last command is two or more words without white space, quotes,
    backslash or [!], joined by single spaces, then [!!] expands to the
    whole command, [!$] to its last word, [!^] to its second word and [!*]
    to all its words but the first, and nothing else happens. *)
Theorem history_tokens_on_plain_words
        (w : World) (first second : string) (rest : list string) :
  let ws := first :: second :: rest in
  forallb plain_word ws = true ->
  forallb (fun s => negb (has_char "!" s)) ws = true ->
  lastcmd (self w) = PyStr.join " " ws ->
  do_last_command_substitutions "!!" w = (Ok (PyStr.join " " ws), w)
  /\ do_last_command_substitutions "!$" w = (Ok (last ws EmptyString), w)
  /\ do_last_command_substitutions "!^" w = (Ok second, w)
  /\ do_last_command_substitutions "!*" w = (Ok (PyStr.join " " (second :: rest)), w).
Proof.
  intros ws Hplain Hbang Hlast.
  assert (Hall : has_char "!" (PyStr.join " " ws) = false)
    by (apply has_char_join; [reflexivity | exact Hbang]).
  assert (Hne : String.eqb (PyStr.join " " ws) EmptyString = false).
  { subst ws. unfold PyStr.join.
    change (String.concat " " (first :: second :: rest))
      with (first ++ String " " (String.concat " " (second :: rest))).
    destruct first; reflexivity. }
  assert (Hwords : forall x, In x ws -> has_char "!" x = false).
  { intros x Hx. rewrite forallb_forall in Hbang. apply negb_true_iff, Hbang, Hx. }
  assert (Hl : has_char "!" (last ws EmptyString) = false).
  { apply Hwords. destruct (@exists_last _ ws) as (l' & x & E); [discriminate|].
    rewrite E, last_last. apply in_or_app. right. left. reflexivity. }
  assert (Hs : has_char "!" second = false) by (apply Hwords; right; left; reflexivity).
  assert (Hr : has_char "!" (PyStr.join " " (second :: rest)) = false).
  { apply has_char_join; [reflexivity|]. subst ws. cbn [forallb] in Hbang.
    apply andb_true_iff in Hbang. apply Hbang. }
  unfold do_last_command_substitutions, bind, gets, lift.
  rewrite Hlast, Hne. cbn [negb].
  rewrite (split_join_words ws Hplain).
  rewrite (index_last_is_last ws EmptyString) by discriminate.
  change (index ws 1) with (@Ok string second).
  change (skipn 1 ws) with (second :: rest).
  unfold ret. repeat split.
  - rewrite (replace_whole "!!") by discriminate.
    rewrite (replace_no_char "!" "$" _ _ Hall), (replace_no_char "!" "^" _ _ Hall),
      (replace_no_char "!" "*" _ _ Hall). reflexivity.
  - change (PyStr.replace "!$" "!!" (PyStr.join " " ws)) with "!$".
    rewrite (replace_whole "!$") by discriminate.
    rewrite (replace_no_char "!" "^" _ _ Hl), (replace_no_char "!" "*" _ _ Hl).
    reflexivity.
  - change (PyStr.replace "!^" "!!" (PyStr.join " " ws)) with "!^".
    change (PyStr.replace "!^" "!$" (last ws EmptyString)) with "!^".
    rewrite (replace_whole "!^") by discriminate.
    rewrite (replace_no_char "!" "*" _ _ Hs). reflexivity.
  - change (PyStr.replace "!*" "!!" (PyStr.join " " ws)) with "!*".
    change (PyStr.replace "!*" "!$" (last ws EmptyString)) with "!*".
    change (PyStr.replace "!*" "!^" second) with "!*".
    apply f_equal2; [|reflexivity]. f_equal.
    apply (replace_whole "!*"). discriminate.
Qed.

Lemma history_tokens_on_plain_words_witness :
  let w := on_self (set_lastcmd "run app.activity.start --component com.example.app .Main")
                   example_world in
  do_last_command_substitutions "!!" w
  = (Ok "run app.activity.start --component com.example.app .Main", w)
  /\ do_last_command_substitutions "!$" w = (Ok ".Main", w)
  /\ do_last_command_substitutions "!^" w = (Ok "app.activity.start", w)
  /\ do_last_command_substitutions "!*" w
     = (Ok "app.activity.start --component com.example.app .Main", w).
Proof.
  exact (history_tokens_on_plain_words
           (on_self (set_lastcmd "run app.activity.start --component com.example.app .Main")
                    example_world)
           "run" "app.activity.start" ["--component"; "com.example.app"; ".Main"]
           eq_refl eq_refl eq_refl).
Defined.

Lemma rsplit_last_none (sep : ascii) (s : string) :
  PyStr.rsplit_last sep s = None -> has_char sep s = false.
Proof.
  induction s as [|c s IH]; [reflexivity|]. cbn.
  destruct (PyStr.rsplit_last sep s) as [[? ?]|]; [discriminate|].
  destruct (Ascii.eqb c sep); [discriminate|]. intros _. apply IH. reflexivity.
Qed.

(** X18: what a redirection that was installed consists of.  When
    [__redirect_output] returns a line and has changed the session's
    output, the line it got is the line it returns, a [>] and a
    destination without [>]; the file opened is the destination stripped of
    white space; the new output is a new tee on the output from before,
    which is saved for [postcmd]. *)
Theorem redirection_target (host : Host) (sline body : string) (w w1 : World) :
  redirect_output host sline w = (Ok body, w1) ->
  stdout (self w1) <> stdout (self w) ->
  exists destination,
    sline = body ++ ">" ++ destination
    /\ has_char ">" destination = false
    /\ w1 = installed (PyStr.strip destination) ModeW w
    /\ stdout (self w1)
       = Tee (next_oid (proc w)) (stdout (self w)) (PyStr.strip destination) ModeW
    /\ output_redirected (self w1) = Some (stdout (self w))
    /\ next_oid (proc w1) = S (next_oid (proc w)).
Proof.
  rewrite redirect_output_cases.
  destruct (PyStr.rsplit_last ">" sline) as [[b dest]|] eqn:E; [|discriminate].
  apply rsplit_last_spec in E. destruct E as [Hline Hnone].
  destruct dest as [|c rest].
  - intros H Hchanged. inversion H; subst. exfalso. apply Hchanged. reflexivity.
  - cbv zeta.
    destruct (open_error host (PyStr.strip (String c rest)) ModeW) as [[n m]|].
    + intros H Hchanged. inversion H; subst. exfalso. apply Hchanged. reflexivity.
    + intros H _. inversion H; subst. exists (String c rest).
      repeat split. apply rsplit_last_none, Hnone.
Qed.

Lemma redirection_target_witness :
  exists destination,
    "run app.package.list > out.txt" = "run app.package.list " ++ ">" ++ destination
    /\ has_char ">" destination = false
    /\ installed "out.txt" ModeW example_world
       = installed (PyStr.strip destination) ModeW example_world
    /\ stdout (self (installed "out.txt" ModeW example_world))
       = Tee (next_oid (proc example_world)) (stdout (self example_world))
             (PyStr.strip destination) ModeW
    /\ output_redirected (self (installed "out.txt" ModeW example_world))
       = Some (stdout (self example_world))
    /\ next_oid (proc (installed "out.txt" ModeW example_world))
       = S (next_oid (proc example_world)).
Proof.
  apply (redirection_target example_host "run app.package.list > out.txt"
           "run app.package.list " example_world (installed "out.txt" ModeW example_world)).
  - reflexivity.
  - discriminate.
Defined.

Lemma fold_print_writes (lines : list string) (m : M unit) (w : World) (log : list (stream * string)) :
  (fst (m w) = Ok tt /\ self (snd (m w)) = self w /\ rl (snd (m w)) = rl w
   /\ written (proc (snd (m w))) = (written (proc w) ++ log)%list) ->
  let m' := fold_left (fun m line => m ;; print line) lines m in
  fst (m' w) = Ok tt /\ self (snd (m' w)) = self w /\ rl (snd (m' w)) = rl w
  /\ written (proc (snd (m' w)))
     = (written (proc w) ++ log
        ++ map (fun line => (SysStdout, String.append line PyStr.nl)) lines)%list.
Proof.
  revert m log; induction lines as [|l lines IH]; intros m log H; cbv zeta.
  - cbn [fold_left map]. rewrite app_nil_r. exact H.
  - cbn [fold_left map].
    replace (log ++ (SysStdout, String.append l PyStr.nl)
                 :: map (fun line => (SysStdout, String.append line PyStr.nl)) lines)%list
      with ((log ++ [(SysStdout, String.append l PyStr.nl)])
              ++ map (fun line => (SysStdout, String.append line PyStr.nl)) lines)%list
      by (rewrite <- app_assoc; reflexivity).
    apply IH. unfold bind. destruct H as (H1 & H2 & H3 & H4).
    destruct (m w) as [[[]|e] w1]; cbn [fst snd] in *; [|discriminate].
    cbn. rewrite H2, H3, H4, app_assoc. auto.
Qed.

(** X19: [env] prints the table.  It writes one line [name=value] for each
    variable to [sys.stdout] (not to the session's output), in the order of
    the table, returns without stopping, and leaves the session and the line
    editor as they were. *)
Theorem do_env_prints_the_table (arguments : string) (w : World) :
  let w' := snd (do_env arguments w) in
  fst (do_env arguments w) = Ok false
  /\ self w' = self w /\ rl w' = rl w
  /\ written (proc w')
     = (written (proc w)
        ++ map (fun kv => (SysStdout,
                           String.append (fst kv)
                             (String.append "=" (String.append (snd kv) PyStr.nl))))
               (variables (self w)))%list.
Proof.
  assert (Hrun : exists w1,
            do_env arguments w = (Ok false, w1)
            /\ self w1 = self w /\ rl w1 = rl w
            /\ written (proc w1)
               = (written (proc w)
                  ++ map (fun kv => (SysStdout,
                                     String.append (fst kv)
                                       (String.append "=" (String.append (snd kv) PyStr.nl))))
                         (variables (self w)))%list).
  { unfold do_env. unfold bind at 1, gets at 1. unfold bind at 1.
    pose proof (fold_print_writes
                  (map (fun kv => fst kv ++ "=" ++ snd kv) (variables (self w)))
                  (ret tt) w []) as H.
    cbv zeta in H. rewrite map_map in H. cbn [app] in H.
    assert (Hfold : forall (l : list (string * string)) (m : M unit),
              fold_left (fun m kv => m ;; print (fst kv ++ "=" ++ snd kv)) l m
              = fold_left (fun m line => m ;; print line)
                          (map (fun kv => fst kv ++ "=" ++ snd kv) l) m).
    { induction l as [|kv l IH]; intros m; [reflexivity | apply IH]. }
    rewrite Hfold.
    destruct H as (H1 & H2 & H3 & H4).
    { cbn. rewrite app_nil_r. auto. }
    destruct (fold_left _ _ (ret tt) w) as [[[]|e] w1]; cbn [fst snd] in *; [|discriminate].
    exists w1. cbn. rewrite H4. repeat split; try assumption.
    f_equal. apply map_ext. intros kv. rewrite append_assoc. reflexivity. }
  destruct Hrun as (w1 & -> & H). cbv zeta. cbn [fst snd]. auto.
Qed.

(** X20: a refused history write leaves [push_completer] half done.  When
    the context being left has a history file and writing it is refused,
    [push_completer] raises that [IOError] after it has installed the new
    completer and pushed the old one, and before it pushes the new history
    file: the completer stack has grown and the history stack has not. *)
Theorem refused_write_leaves_push_half_done
        (host : Host) (c : completer) (hf : option string) (w : World)
        (hs : list (option string)) (f strerror : string) (errno : nat) :
  has_readline host = true ->
  history_stack (self w) = (hs ++ [Some f])%list ->
  PyStr.nonempty f = true ->
  write_history_error host f = Some (errno, strerror) ->
  let w' := snd (push_completer host c hf w) in
  fst (push_completer host c hf w) = Raise (IOError errno strerror)
  /\ rl_completer (rl w') = Some c
  /\ completer_stack (self w') = (completer_stack (self w) ++ [rl_completer (rl w)])%list
  /\ history_stack (self w') = history_stack (self w)
  /\ rl_history (rl w') = rl_history (rl w)
  /\ disk (proc w') = disk (proc w).
Proof.
  intros Hrl Hhs Hf Herr.
  assert (Hrun : exists w1,
            push_completer host c hf w = (Raise (IOError errno strerror), w1)
            /\ rl_completer (rl w1) = Some c
            /\ completer_stack (self w1)
               = (completer_stack (self w) ++ [rl_completer (rl w)])%list
            /\ history_stack (self w1) = history_stack (self w)
            /\ rl_history (rl w1) = rl_history (rl w)
            /\ disk (proc w1) = disk (proc w)).
  { unfold push_completer. rewrite Hrl.
    unfold set_completer. unfold bind, gets, modify, lift. cbv beta iota.
    cbn [self on_self on_rl history_stack set_completer_stack].
    rewrite Hhs, length_snoc_pos, index_last_snoc, Hf.
    unfold write_history_file. rewrite Herr. unfold raise.
    eexists. split; [reflexivity|]. cbn. rewrite Hhs. auto 10. }
  destruct Hrun as (w1 & -> & H). cbv zeta. cbn [fst snd]. auto.
Qed.

Lemma refused_write_leaves_push_half_done_witness :
  let w' := snd (push_completer read_only_host (HostCompleter 1) None history_world) in
  fst (push_completer read_only_host (HostCompleter 1) None history_world)
  = Raise (IOError 13 "Permission denied")
  /\ rl_completer (rl w') = Some (HostCompleter 1)
  /\ completer_stack (self w') = [None; Some CmdComplete]
  /\ history_stack (self w') = [Some ".drozer_history"]
  /\ rl_history (rl w') = ["list"; "run app.package.list"]
  /\ disk (proc w') = [].
Proof.
  exact (refused_write_leaves_push_half_done read_only_host (HostCompleter 1) None
           history_world [] ".drozer_history" "Permission denied" 13
           eq_refl eq_refl eq_refl eq_refl).
Defined.
